(** * Carris backend: the refresh / cache / broadcast pipeline of [main.py]

    A shallow embedding of the request handlers and background task of
    [src/main.py].  Async functions are functions in a state-and-exception
    monad over the module's global variables; Redis and PostgreSQL are the
    replies their clients give; Python builtins that the module calls but
    does not define ([float], [int], [json.loads]) are an interface. *)

From Stdlib Require Import ZArith String Ascii List Lia Sorted Permutation.
From Stdlib Require DecimalString OrdersEx.
From stdpp Require Import base option list gmap strings sorting.

#[local] Set Warnings "-register-all".

Local Open Scope string_scope.
Local Open Scope list_scope.

(** ** Python values, exceptions and builtins *)

Module Py.

(** The exception classes the module raises, catches or lets through.
    [CancelledError] derives from [BaseException], all others from
    [Exception]. *)
Inductive exn :=
| ValueError
| TypeError
| KeyError
| IndexError
| OverflowError
| JSONDecodeError
| RedisError (msg : string)
| PostgresError (msg : string)
| HTTPException (status_code : Z) (detail : string)
| CancelledError.

Definition is_Exception (e : exn) : bool :=
  match e with
  | CancelledError => false
  | _ => true
  end.

Inductive result (A : Type) :=
| Return (a : A)
| Raise (e : exn).
Arguments Return {A} a.
Arguments Raise {A} e.

#[export] Instance result_ret : MRet result := λ A a, Return a.

#[export] Instance result_bind : MBind result := λ A B k m,
  match m with
  | Return a => k a
  | Raise e => Raise e
  end.

(** [needle in s] on strings. *)
Fixpoint contains (needle s : string) : bool :=
  String.prefix needle s ||
  match s with
  | EmptyString => false
  | String _ s' => contains needle s'
  end.

(** [s.split(sep)] for a one-character separator. *)
Fixpoint split (sep : ascii) (s : string) : list string :=
  match s with
  | EmptyString => [""]
  | String c s' =>
      if Ascii.eqb c sep then "" :: split sep s'
      else match split sep s' with
           | [] => [String c ""]
           | w :: ws => String c w :: ws
           end
  end.

(** [l[i]] *)
Definition index {A} (l : list A) (i : nat) : result A :=
  match l !! i with
  | Some x => Return x
  | None => Raise IndexError
  end.

(** [range(0, stop, 2)] *)
Definition range2 (stop : nat) : list nat :=
  map (Nat.mul 2) (seq 0 (Nat.div2 (S stop))).

(** [sep.join(l)] *)
Definition join (sep : string) (l : list string) : string :=
  String.concat sep l.

(** The numeric builtins.  [float] and [int] are CPython's; the model
    keeps them abstract and fixes only what the handlers rely on: a
    failed conversion of a string raises [ValueError], an integer too
    large for a float raises [OverflowError], the truth value of a
    float is [x != 0.0], and [float(0)] is the float [0.0]. *)
Class Num := {
  pyfloat : Type;
  pyfloat_eq_dec :: EqDecision pyfloat;
  float_of_str : string → option pyfloat;
  float_of_int : Z → option pyfloat;
  float_bool : pyfloat → bool;
  int_of_str : string → option Z;
  float_zero : pyfloat;
  float_of_int_0 : float_of_int 0 = Some float_zero;
  float_zero_falsy : float_bool float_zero = false
}.

(** What [json.loads] builds. A [JDict] lists the items of the dict,
    one per key. *)
Inductive json `{Num} :=
| JNull
| JBool (b : bool)
| JInt (n : Z)
| JFloat (x : pyfloat)
| JStr (s : string)
| JList (items : list json)
| JDict (items : list (string * json)).

(** [json.loads] on a [str]; [None] is [json.JSONDecodeError]. *)
Class Json `{Num} := {
  json_loads : string → option json
}.

Section Builtins.
Context `{Json}.

Fixpoint assoc (k : string) (items : list (string * json)) : option json :=
  match items with
  | [] => None
  | (k', v) :: items' => if String.eqb k k' then Some v else assoc k items'
  end.

(** [obj[key]] for a string key. *)
Definition getitem (obj : json) (key : string) : result json :=
  match obj with
  | JDict items =>
      match assoc key items with
      | Some v => Return v
      | None => Raise KeyError
      end
  | _ => Raise TypeError
  end.

(** [float(s)] for a [str]. *)
Definition float_str (s : string) : result pyfloat :=
  match float_of_str s with
  | Some x => Return x
  | None => Raise ValueError
  end.

(** [float(n)] for an [int]. *)
Definition float_int (n : Z) : result pyfloat :=
  match float_of_int n with
  | Some x => Return x
  | None => Raise OverflowError
  end.

(** [float(v)] for a decoded JSON value. *)
Definition float_json (v : json) : result pyfloat :=
  match v with
  | JStr s => float_str s
  | JInt n => float_int n
  | JFloat x => Return x
  | JBool b => float_int (if b then 1 else 0)
  | JNull | JList _ | JDict _ => Raise TypeError
  end.

(** [int(s)] for a [str]. *)
Definition int_str (s : string) : result Z :=
  match int_of_str s with
  | Some n => Return n
  | None => Raise ValueError
  end.
End Builtins.

End Py.

Import Py.


(** ** Records sent to clients *)

(** An entry of the [/api/vehicles] snapshot. *)
Module Vehicle.
Record t `{Num} := mk {
  id : string;
  lat : pyfloat;
  lng : pyfloat;
  rsn : string;
  lp : string;
  tid : string;
  br : string
}.
End Vehicle.

(** The answer of [/api/vehicles/{vehicle_id}]. *)
Module VehicleDetail.
Record t `{Num} := mk {
  id : string;
  lat : pyfloat;
  lng : pyfloat;
  lp : string;
  r : string;
  rsn : string;
  rln : string;
  s : string;
  sn : string;
  cs : string;
  th : string;
  sp : string;
  br : string;
  ts : string;
  lu : string;
  tid : string;
  di : string;
  sst : string;
  set : string;
  ast : string
}.
End VehicleDetail.

(** A point of [/api/vehicles/{vehicle_id}/track]. *)
Module TrackPoint.
Record t `{Num} := mk {
  lat : pyfloat;
  lng : pyfloat;
  timestamp : Z
}.
End TrackPoint.

(** An entry of [stops_cache]. *)
Module Stop.
Record t `{Num} := mk {
  id : string;
  lat : pyfloat;
  lng : pyfloat;
  routes : string
}.
End Stop.

(** A value of [stop_details_cache]. *)
Module StopDetail.
Record t := mk {
  stop_id : string;
  stop_name : string;
  routes : string
}.
End StopDetail.

(** An element of [/api/shapes/route/{route_short_name}]. *)
Module RouteShape.
Record t `{Num} := mk {
  points : list (pyfloat * pyfloat);
  direction : Z
}.
End RouteShape.

(** ** Sorting, as the backends do it for the module *)

Module Order.

Fixpoint insert_by {A} (leb : A → A → bool) (x : A) (l : list A) : list A :=
  match l with
  | [] => [x]
  | y :: l' => if leb x y then x :: l else y :: insert_by leb x l'
  end.

(** A stable sort by insertion. *)
Definition sort_by {A} (leb : A → A → bool) (l : list A) : list A :=
  foldr (insert_by leb) [] l.

End Order.

(** ** The two backends

    A command sent to Redis or PostgreSQL either gives its reply or fails
    with a connection or server error. *)
Inductive reply (A : Type) :=
| Ok (a : A)
| Error (msg : string).
Arguments Ok {A} a.
Arguments Error {A} msg.

(** [redis_client] is created with [decode_responses=True]: keys, hash
    fields and hash values come back as [str].  What the elements of a
    [ZRANGE ... WITHSCORES] reply are is the client library's choice: a
    flat reply alternates member and score as strings, redis-py pairs each
    member with its score in a tuple. *)
Module Redis.

Inductive zitem `{Num} :=
| ZStr (s : string)
| ZTuple (member : string) (score : pyfloat).

Record client `{Num} := mk {
  keys : string → reply (list string);
  hgetall : string → reply (gmap string string);
  zrange_withscores : string → reply (list zitem)
}.

(** Awaiting a command: a failed command raises. *)
Definition await {A} (r : reply A) : result A :=
  match r with
  | Ok a => Return a
  | Error msg => Raise (RedisError msg)
  end.

End Redis.

(** The tables of the GTFS database read through [db_pool], with the
    columns the queries name.  Columns that a query tests for [NULL], and
    the optional GTFS columns, are nullable; coordinates are double
    precision. *)
Module stops.
Record row `{Num} := mk {
  stop_id : string;
  stop_name : string;
  stop_lat : option pyfloat;
  stop_lon : option pyfloat
}.
End stops.

Module routes.
Record row := mk {
  route_id : string;
  route_short_name : option string
}.
End routes.

Module trips.
Record row := mk {
  trip_id : string;
  route_id : string;
  shape_id : option string;
  direction_id : option Z
}.
End trips.

Module stop_times.
Record row := mk {
  trip_id : string;
  stop_id : string;
  stop_sequence : Z
}.
End stop_times.

Module shapes.
Record row `{Num} := mk {
  shape_id : string;
  shape_pt_lat : pyfloat;
  shape_pt_lon : pyfloat;
  shape_pt_sequence : Z
}.
End shapes.

Module Pg.

Record database `{Num} := mk {
  stops : list stops.row;
  routes : list routes.row;
  trips : list trips.row;
  stop_times : list stop_times.row;
  shapes : list shapes.row
}.

(** Acquiring a connection and running a query on it gives the query's
    rows over the tables, or fails. *)
Definition pool `{Num} : Type := reply database.

Definition await {A} (r : reply A) : result A :=
  match r with
  | Ok a => Return a
  | Error msg => Raise (PostgresError msg)
  end.

End Pg.

(** ** Global state and effects of the module *)

(** What the handlers write to standard output. *)
Inductive line :=
| ClientConnected (sid : string)
| ClientDisconnected (sid : string)
| CachedVehicles (n : nat)
| ErrorFetchingVehicles (error : exn)
| ErrorInPeriodicUpdate (error : exn)
| ErrorFetchingVehicleDetails (error : exn)
| ErrorFetchingVehicleTrack (error : exn)
| LoadingStops
| CachedStops (n : nat)
| ErrorLoadingStops (error : exn)
| ErrorFetchingShapesForRoute (error : exn).

Section App.
Context `{Json}.

(** The data of a Socket.IO event. *)
Inductive payload :=
| VehicleList (vehicles : list Vehicle.t)
| UserCount (n : nat).

(** [print(...)] and [sio.emit(event, data, room=...)]; without [room]
    the event goes to every connected client. *)
Inductive effect :=
| Stdout (l : line)
| Emit (event : string) (data : payload) (room : option string).

(** The module's globals, [sio.manager.rooms] (namespace, then room name,
    then the sids in the room), and the effects so far, oldest first. *)
Record app := mkApp {
  vehicle_cache : list Vehicle.t;
  stops_cache : list Stop.t;
  stop_details_cache : gmap string StopDetail.t;
  rooms : gmap string (gmap (option string) (gset string));
  effects : list effect
}.

(** The state at import time. *)
Definition initial : app :=
  {| vehicle_cache := []; stops_cache := []; stop_details_cache := ∅;
     rooms := ∅; effects := [] |}.

(** A coroutine: it runs on the globals and returns or raises. *)
Definition io (A : Type) : Type := app → result A * app.

#[export] Instance io_ret : MRet io := λ A a st, (Return a, st).

#[export] Instance io_bind : MBind io := λ A B k m st,
  match m st with
  | (Return a, st') => k a st'
  | (Raise e, st') => (Raise e, st')
  end.

Definition lift {A} (m : result A) : io A := λ st, (m, st).

Definition raise {A} (e : exn) : io A := λ st, (Raise e, st).

(** [try: body / except Exception as error: handler error] *)
Definition try_except_Exception {A} (body : io A) (handler : exn → io A) : io A :=
  λ st,
    match body st with
    | (Return a, st') => (Return a, st')
    | (Raise error, st') =>
        if is_Exception error then handler error st' else (Raise error, st')
    end.

Definition print (l : line) : io unit :=
  λ st, (Return tt,
         {| vehicle_cache := vehicle_cache st; stops_cache := stops_cache st;
            stop_details_cache := stop_details_cache st; rooms := rooms st;
            effects := effects st ++ [Stdout l] |}).

Definition sio_emit (event : string) (data : payload) (room : option string) : io unit :=
  λ st, (Return tt,
         {| vehicle_cache := vehicle_cache st; stops_cache := stops_cache st;
            stop_details_cache := stop_details_cache st; rooms := rooms st;
            effects := effects st ++ [Emit event data room] |}).

Definition get_vehicle_cache : io (list Vehicle.t) :=
  λ st, (Return (vehicle_cache st), st).

(** [vehicle_cache = vehicles]: the global is rebound to a new list. *)
Definition set_vehicle_cache (vehicles : list Vehicle.t) : io unit :=
  λ st, (Return tt,
         {| vehicle_cache := vehicles; stops_cache := stops_cache st;
            stop_details_cache := stop_details_cache st; rooms := rooms st;
            effects := effects st |}).

(** [data.get(field, default)] on the [str] values of a hash. *)
Definition get (data : gmap string string) (field fallback : string) : string :=
  default fallback (data !! field).

(** [float(data.get(field, 0))]: the default is the [int] 0. *)
Definition float_get (data : gmap string string) (field : string) : result pyfloat :=
  match data !! field with
  | Some s => float_str s
  | None => float_int 0
  end.

(** The body of the [for key in keys] loop of [fetch_and_cache_vehicles],
    from [vehicles] to [vehicles] after the iteration. *)
Definition fetch_iteration (key : string) (data : gmap string string)
    (vehicles : list Vehicle.t) : result (list Vehicle.t) :=
  if bool_decide (data = ∅) then Return vehicles
  else
    vehicle_id ← index (split ":" key) 1;
    if bool_decide (data !! "status" ≠ Some "active") then Return vehicles
    else
      match
        (lat ← float_get data "latitude";
         lng ← float_get data "longitude";
         if float_bool lat && float_bool lng then
           Return (vehicles ++ [
             {| Vehicle.id := vehicle_id;
                Vehicle.lat := lat;
                Vehicle.lng := lng;
                Vehicle.rsn := get data "route_short_name" "N/A";
                Vehicle.lp := get data "license_plate" "";
                Vehicle.tid := get data "trip_id" "";
                Vehicle.br := get data "two_shape_bearing" (get data "bearing" "0") |}])
         else Return vehicles)
      with
      | Raise ValueError | Raise TypeError => Return vehicles
      | outcome => outcome
      end.

Fixpoint fetch_loop (redis_client : Redis.client) (keys : list string)
    (vehicles : list Vehicle.t) : result (list Vehicle.t) :=
  match keys with
  | [] => Return vehicles
  | key :: keys' =>
      data ← Redis.await (Redis.hgetall redis_client key);
      vehicles' ← fetch_iteration key data vehicles;
      fetch_loop redis_client keys' vehicles'
  end.

(** The [try] block of [fetch_and_cache_vehicles]. *)
Definition fetch_and_cache_vehicles_try (redis_client : Redis.client) : io unit :=
  all_keys ← lift (Redis.await (Redis.keys redis_client "vehicle:*"));
  let keys := filter (λ key, negb (contains ":track" key)) all_keys in
  if bool_decide (keys = []) then
    set_vehicle_cache []
  else
    vehicles ← lift (fetch_loop redis_client keys []);
    _ ← set_vehicle_cache vehicles;
    _ ← print (CachedVehicles (length vehicles));
    vehicle_cache ← get_vehicle_cache;
    sio_emit "vehicles" (VehicleList vehicle_cache) None.

Definition fetch_and_cache_vehicles (redis_client : Redis.client) : io unit :=
  try_except_Exception
    (fetch_and_cache_vehicles_try redis_client)
    (λ error, print (ErrorFetchingVehicles error)).

(** One turn of the [while True] loop: whether the task is cancelled
    during [asyncio.sleep(30)], and the Redis client as it answers during
    the refresh that follows. *)
Record turn := mkTurn {
  cancelled : bool;
  backend : Redis.client
}.

Definition sleep (t : turn) : io unit :=
  if cancelled t then raise CancelledError else mret tt.

(** [periodic_vehicle_updates] over the turns observed. *)
Fixpoint periodic_vehicle_updates (turns : list turn) : io unit :=
  match turns with
  | [] => mret tt
  | t :: turns' =>
      λ st,
        match (_ ← sleep t; fetch_and_cache_vehicles (backend t)) st with
        | (Return _, st') => periodic_vehicle_updates turns' st'
        | (Raise CancelledError, st') => (Return tt, st')
        | (Raise error, st') =>
            if is_Exception error then
              match print (ErrorInPeriodicUpdate error) st' with
              | (_, st'') => periodic_vehicle_updates turns' st''
              end
            else (Raise error, st')
        end
  end.

(** [len(sio.manager.rooms.get('/', {}).keys())] *)
Definition get_user_count : io nat :=
  λ st, (Return (size (default ∅ (rooms st !! "/"))), st).

Definition connect (sid : string) : io unit :=
  _ ← print (ClientConnected sid);
  vehicle_cache ← get_vehicle_cache;
  _ ← sio_emit "vehicles" (VehicleList vehicle_cache) (Some sid);
  user_count ← get_user_count;
  sio_emit "userCount" (UserCount user_count) None.

Definition disconnect (sid : string) : io unit :=
  _ ← print (ClientDisconnected sid);
  user_count ← get_user_count;
  sio_emit "userCount" (UserCount user_count) None.

End App.

(** ** REST handlers over Redis and the caches *)

Section Queries.
Context `{Json}.

Definition get_vehicles : io (list Vehicle.t) := get_vehicle_cache.

(** The [try] block of [get_vehicle_details]. *)
Definition get_vehicle_details_try (redis_client : Redis.client)
    (vehicle_id : string) : result VehicleDetail.t :=
  data ← Redis.await (Redis.hgetall redis_client ("vehicle:" +:+ vehicle_id));
  if bool_decide (data = ∅) then
    Raise (HTTPException 404 "Vehicle not found")
  else
    lat ← float_get data "latitude";
    lng ← float_get data "longitude";
    Return
      {| VehicleDetail.id := vehicle_id;
         VehicleDetail.lat := lat;
         VehicleDetail.lng := lng;
         VehicleDetail.lp := get data "license_plate" "";
         VehicleDetail.r := get data "route_id" "N/A";
         VehicleDetail.rsn := get data "route_short_name" "N/A";
         VehicleDetail.rln := get data "route_long_name" "";
         VehicleDetail.s := get data "stop_id" "N/A";
         VehicleDetail.sn := get data "stop_name" "";
         VehicleDetail.cs := get data "current_status" "";
         VehicleDetail.th := get data "trip_headsign" "";
         VehicleDetail.sp := get data "speed" "";
         VehicleDetail.br := get data "two_shape_bearing" (get data "bearing" "");
         VehicleDetail.ts := get data "timestamp" "";
         VehicleDetail.lu := get data "last_updated" "";
         VehicleDetail.tid := get data "trip_id" "";
         VehicleDetail.di := get data "direction_id" "";
         VehicleDetail.sst := get data "scheduled_start_time" "";
         VehicleDetail.set := get data "scheduled_end_time" "";
         VehicleDetail.ast := get data "actual_start_time" "" |}.

(** [except HTTPException: raise] comes before [except Exception]. *)
Definition get_vehicle_details (redis_client : Redis.client)
    (vehicle_id : string) : io VehicleDetail.t :=
  λ st,
    match get_vehicle_details_try redis_client vehicle_id with
    | Return detail => (Return detail, st)
    | Raise (HTTPException status_code detail) =>
        (Raise (HTTPException status_code detail), st)
    | Raise error =>
        if is_Exception error then
          (_ ← print (ErrorFetchingVehicleDetails error);
           raise (HTTPException 500 "Failed to fetch vehicle details")) st
        else (Raise error, st)
    end.

(** [json.loads(x)] on an element of the [ZRANGE] reply: anything but a
    [str] is a [TypeError]. *)
Definition json_loads_item (x : Redis.zitem) : result json :=
  match x with
  | Redis.ZStr s =>
      match json_loads s with
      | Some v => Return v
      | None => Raise JSONDecodeError
      end
  | Redis.ZTuple _ _ => Raise TypeError
  end.

(** [int(x)] on an element of the [ZRANGE] reply. *)
Definition int_item (x : Redis.zitem) : result Z :=
  match x with
  | Redis.ZStr s => int_str s
  | Redis.ZTuple _ _ => Raise TypeError
  end.

(** The [try] block inside the loop of [get_vehicle_track], for index
    [i]: the point to append. *)
Definition track_point (track_data : list Redis.zitem) (i : nat) : result TrackPoint.t :=
  member ← index track_data i;
  position ← json_loads_item member;
  latitude ← getitem position "latitude";
  lat ← float_json latitude;
  longitude ← getitem position "longitude";
  lng ← float_json longitude;
  score ← index track_data (i + 1);
  timestamp ← int_item score;
  Return {| TrackPoint.lat := lat; TrackPoint.lng := lng;
            TrackPoint.timestamp := timestamp |}.

Fixpoint track_loop (track_data : list Redis.zitem) (indices : list nat)
    (track : list TrackPoint.t) : result (list TrackPoint.t) :=
  match indices with
  | [] => Return track
  | i :: indices' =>
      match track_point track_data i with
      | Return point => track_loop track_data indices' (track ++ [point])
      | Raise JSONDecodeError | Raise KeyError | Raise ValueError =>
          track_loop track_data indices' track
      | Raise error => Raise error
      end
  end.

(** The [try] block of [get_vehicle_track]. *)
Definition get_vehicle_track_try (redis_client : Redis.client)
    (vehicle_id : string) : result (list TrackPoint.t) :=
  track_data ← Redis.await
    (Redis.zrange_withscores redis_client ("vehicle:" +:+ vehicle_id +:+ ":track"));
  if bool_decide (track_data = []) then Return []
  else track_loop track_data (range2 (length track_data)) [].

Definition get_vehicle_track (redis_client : Redis.client)
    (vehicle_id : string) : io (list TrackPoint.t) :=
  try_except_Exception
    (lift (get_vehicle_track_try redis_client vehicle_id))
    (λ error,
       _ ← print (ErrorFetchingVehicleTrack error);
       raise (HTTPException 500 "Failed to fetch vehicle track")).

Definition get_stops : io (list Stop.t) :=
  λ st, (Return (stops_cache st), st).

Definition get_stop_details (stop_id : string) : io StopDetail.t :=
  λ st,
    match stop_details_cache st !! stop_id with
    | Some stop_details => (Return stop_details, st)
    | None => (Raise (HTTPException 404 "Stop not found"), st)
    end.

End Queries.

(** ** The SQL the handlers send, as list programs over the tables

    Row order where a query does not fix it (groups, ties of an
    [ORDER BY]) is the server's choice; the model takes the order of first
    occurrence, and no statement below depends on it unless it says so. *)

Module Sql.

(** [FROM l JOIN r ON on] *)
Definition join {A B} (on : A → B → bool) (l : list A) (r : list B) : list (A * B) :=
  a ← l; (λ b, (a, b)) <$> filter (λ b, on a b) r.

(** [FROM l LEFT JOIN r ON on] *)
Definition left_join {A B} (on : A → B → bool) (l : list A) (r : list B)
    : list (A * option B) :=
  a ← l;
  match filter (λ b, on a b) r with
  | [] => [(a, None)]
  | bs => (λ b, (a, Some b)) <$> bs
  end.

(** [GROUP BY key]: each key with its rows. *)
Definition group_by {A K} `{EqDecision K} (key : A → K) (rows : list A)
    : list (K * list A) :=
  (λ k, (k, filter (λ a, key a = k) rows)) <$> remove_dups (key <$> rows).

(** [ORDER BY] *)
Definition order_by {A} (leb : A → A → bool) (l : list A) : list A :=
  Order.sort_by leb l.

(** [COUNT(col)]: the rows where the column is not [NULL]. *)
Definition count {A B} (col : A → option B) (rows : list A) : nat :=
  length (filter (λ a, is_Some (col a)) rows).

(** [STRING_AGG(DISTINCT col, sep ORDER BY col)]: [NULL]s are skipped,
    and no value at all gives [NULL]. *)
Definition string_agg_distinct (sep : string) (values : list (option string))
    : option string :=
  match omap id values with
  | [] => None
  | vs => Some (Py.join sep (remove_dups (order_by String.leb vs)))
  end.

End Sql.

(** A row of the query of [load_and_cache_stops]. *)
Module StopRow.
Record t `{Num} := mk {
  stop_id : string;
  stop_name : string;
  stop_lat : option pyfloat;
  stop_lon : option pyfloat;
  routes : option string
}.
End StopRow.

Section Catalog.
Context `{Json}.

#[export] Instance StopRow_eq_dec : EqDecision StopRow.t.
Proof. solve_decision. Defined.

(** The [FROM ... LEFT JOIN] chain of the stops query. *)
Definition stops_joined (db : Pg.database)
    : list (stops.row * option stop_times.row * option trips.row * option routes.row) :=
  Sql.left_join
    (λ '(s, st, t) r,
       match t with
       | Some t => bool_decide (trips.route_id t = routes.route_id r)
       | None => false
       end)
    (Sql.left_join
       (λ '(s, st) t,
          match st with
          | Some st => bool_decide (stop_times.trip_id st = trips.trip_id t)
          | None => false
          end)
       (Sql.left_join
          (λ s st, bool_decide (stops.stop_id s = stop_times.stop_id st))
          (Pg.stops db) (Pg.stop_times db))
       (Pg.trips db))
    (Pg.routes db).

(** The query of [load_and_cache_stops]. *)
Definition stops_query (db : Pg.database) : list StopRow.t :=
  let rows :=
    filter (λ '(s, st, t, r), is_Some (stops.stop_lat s) ∧ is_Some (stops.stop_lon s))
           (stops_joined db) in
  let groups :=
    Sql.group_by
      (λ '(s, st, t, r),
         (stops.stop_id s, stops.stop_name s, stops.stop_lat s, stops.stop_lon s))
      rows in
  remove_dups
    ((λ '((stop_id, stop_name, stop_lat, stop_lon), group),
        {| StopRow.stop_id := stop_id;
           StopRow.stop_name := stop_name;
           StopRow.stop_lat := stop_lat;
           StopRow.stop_lon := stop_lon;
           StopRow.routes :=
             Sql.string_agg_distinct ", "
               ((λ '(s, st, t, r), r ≫= routes.route_short_name) <$> group) |})
     <$> groups).

(** [float(x)] on a double precision column: [None] is a [TypeError]. *)
Definition float_column (x : option pyfloat) : result pyfloat :=
  match x with
  | Some v => Return v
  | None => Raise TypeError
  end.

(** [row['routes'] or ''] *)
Definition routes_or_empty (row : StopRow.t) : string :=
  default "" (StopRow.routes row).

(** An element of the list comprehension that builds [stops_cache]. *)
Definition stop_entry (row : StopRow.t) : result Stop.t :=
  lat ← float_column (StopRow.stop_lat row);
  lng ← float_column (StopRow.stop_lon row);
  Return {| Stop.id := StopRow.stop_id row; Stop.lat := lat; Stop.lng := lng;
            Stop.routes := routes_or_empty row |}.

Fixpoint stop_entries (rows : list StopRow.t) : result (list Stop.t) :=
  match rows with
  | [] => Return []
  | row :: rows' =>
      stop ← stop_entry row;
      stops ← stop_entries rows';
      Return (stop :: stops)
  end.

(** The dict comprehension that builds [stop_details_cache]: a later row
    replaces an earlier one with the same [stop_id]. *)
Definition stop_details (rows : list StopRow.t) : gmap string StopDetail.t :=
  foldl
    (λ cache row,
       <[StopRow.stop_id row :=
           {| StopDetail.stop_id := StopRow.stop_id row;
              StopDetail.stop_name := StopRow.stop_name row;
              StopDetail.routes := routes_or_empty row |}]> cache)
    ∅ rows.

Definition set_stops_cache (stops : list Stop.t) : io unit :=
  λ st, (Return tt,
         {| vehicle_cache := vehicle_cache st; stops_cache := stops;
            stop_details_cache := stop_details_cache st; rooms := rooms st;
            effects := effects st |}).

Definition set_stop_details_cache (details : gmap string StopDetail.t) : io unit :=
  λ st, (Return tt,
         {| vehicle_cache := vehicle_cache st; stops_cache := stops_cache st;
            stop_details_cache := details; rooms := rooms st;
            effects := effects st |}).

Definition load_and_cache_stops (db_pool : Pg.pool) : io unit :=
  try_except_Exception
    (_ ← print LoadingStops;
     rows ← lift (db ← Pg.await db_pool; Return (stops_query db));
     stops ← lift (stop_entries rows);
     _ ← set_stops_cache stops;
     _ ← set_stop_details_cache (stop_details rows);
     print (CachedStops (length stops)))
    (λ error, print (ErrorLoadingStops error)).

(** [query_outbound] and [query_inbound] of [get_shapes_for_route] differ
    in the direction only.  The rows of [FROM ... JOIN ... WHERE]: *)
Definition shape_rows (db : Pg.database) (route_short_name : string) (direction : Z)
    : list (trips.row * routes.row * shapes.row) :=
  filter
    (λ '(t, r, s),
       routes.route_short_name r = Some route_short_name
       ∧ trips.shape_id t ≠ None
       ∧ trips.direction_id t = Some direction)
    (Sql.join
       (λ '(t, r) s, bool_decide (trips.shape_id t = Some (shapes.shape_id s)))
       (Sql.join
          (λ t r, bool_decide (trips.route_id t = routes.route_id r))
          (Pg.trips db) (Pg.routes db))
       (Pg.shapes db)).

(** [SELECT t.shape_id, COUNT(s.shape_pt_sequence) as point_count ...
    GROUP BY t.shape_id] *)
Definition shape_counts (db : Pg.database) (route_short_name : string) (direction : Z)
    : list (option string * nat) :=
  (λ '(shape_id, group),
     (shape_id, Sql.count (λ '(t, r, s), Some (shapes.shape_pt_sequence s)) group))
  <$> Sql.group_by (λ '(t, r, s), trips.shape_id t)
        (shape_rows db route_short_name direction).

(** [ORDER BY point_count DESC LIMIT 1], through [fetchrow]: the row
    [(shape_id, point_count)] that comes first, if any. *)
Definition shape_query (db : Pg.database) (route_short_name : string) (direction : Z)
    : option (option string * nat) :=
  head (Sql.order_by (λ a b, Nat.leb (snd b) (snd a))
          (shape_counts db route_short_name direction)).

Definition query_outbound (db : Pg.database) (route_short_name : string) :=
  shape_query db route_short_name 0.

Definition query_inbound (db : Pg.database) (route_short_name : string) :=
  shape_query db route_short_name 1.

(** [points_query]: the points of a shape in sequence order. *)
Definition points_query (db : Pg.database) (shape_id : option string) : list shapes.row :=
  Sql.order_by
    (λ a b, (shapes.shape_pt_sequence a <=? shapes.shape_pt_sequence b)%Z)
    (filter (λ s, Some (shapes.shape_id s) = shape_id) (Pg.shapes db)).

Definition point_list (points : list shapes.row) : list (pyfloat * pyfloat) :=
  (λ p, (shapes.shape_pt_lat p, shapes.shape_pt_lon p)) <$> points.

(** One of the two [if outbound:] / [if inbound:] blocks: [all_shapes]
    after it. *)
Definition append_shape (db : Pg.database) (chosen : option (option string * nat))
    (direction : Z) (all_shapes : list RouteShape.t) : list RouteShape.t :=
  match chosen with
  | Some (shape_id, _) =>
      let points := points_query db shape_id in
      if bool_decide (points = []) then all_shapes
      else all_shapes ++ [{| RouteShape.points := point_list points;
                             RouteShape.direction := direction |}]
  | None => all_shapes
  end.

(** The [try] block of [get_shapes_for_route]. *)
Definition get_shapes_for_route_try (db_pool : Pg.pool) (route_short_name : string)
    : result (list RouteShape.t) :=
  db ← Pg.await db_pool;
  let all_shapes := [] in
  let all_shapes := append_shape db (query_outbound db route_short_name) 0 all_shapes in
  let all_shapes := append_shape db (query_inbound db route_short_name) 1 all_shapes in
  Return all_shapes.

Definition get_shapes_for_route (db_pool : Pg.pool) (route_short_name : string)
    : io (list RouteShape.t) :=
  try_except_Exception
    (lift (get_shapes_for_route_try db_pool route_short_name))
    (λ error,
       _ ← print (ErrorFetchingShapesForRoute error);
       raise (HTTPException 500 "Failed to fetch shapes")).

End Catalog.

(** ** A runtime to evaluate the model on concrete data

    An instance of the builtins that reads the decimal and JSON literals
    of the data below.  A float is kept as the decimal it was read from;
    rounding to binary64 is not performed, only its effect on the zero
    test is.  [\u] escapes in JSON strings are outside the fragment. *)

Module Exact.

Inductive float :=
| Finite (negative : bool) (digits : N) (exponent : Z)
| Inf (negative : bool)
| NaN.

#[export] Instance float_eq_dec : EqDecision float.
Proof. solve_decision. Defined.

(** The decimal [digits * 10 ^ exponent] rounds to [0.0] when it is at
    most [2 ^ -1075]. *)
Definition nonzero (x : float) : bool :=
  match x with
  | Finite _ digits exponent =>
      if (digits =? 0)%N then false
      else if (0 <=? exponent)%Z then true
      else (10 ^ (- exponent) <? Z.of_N digits * 2 ^ 1075)%Z
  | Inf _ | NaN => true
  end.

(** [float(n)] overflows from [2 ^ 1024 - 2 ^ 970] on. *)
Definition of_int (n : Z) : option float :=
  if (Z.abs n <? 2 ^ 1024 - 2 ^ 970)%Z
  then Some (Finite (n <? 0)%Z (Z.to_N (Z.abs n)) 0)
  else None.

Definition is_space (c : ascii) : bool :=
  let n := nat_of_ascii c in
  ((n =? 32) || ((9 <=? n) && (n <=? 13)))%nat.

Definition is_digit (c : ascii) : bool :=
  let n := nat_of_ascii c in
  ((48 <=? n) && (n <=? 57))%nat.

Definition digit (c : ascii) : N := N.of_nat (nat_of_ascii c - 48).

Definition lower (c : ascii) : ascii :=
  let n := nat_of_ascii c in
  if ((65 <=? n) && (n <=? 90))%nat then ascii_of_nat (n + 32) else c.

Fixpoint lstrip (s : list ascii) : list ascii :=
  match s with
  | c :: s' => if is_space c then lstrip s' else s
  | [] => []
  end.

Definition strip (s : list ascii) : list ascii :=
  rev (lstrip (rev (lstrip s))).

(** Digits with single underscores between them: the value read so far,
    the number of digits, and the rest. *)
Fixpoint digitpart (acc : N) (n : nat) (s : list ascii) : N * nat * list ascii :=
  match s with
  | c :: s' =>
      if is_digit c then digitpart (acc * 10 + digit c) (S n) s'
      else if Ascii.eqb c "_" && bool_decide (n ≠ 0) then
        match s' with
        | d :: s'' =>
            if is_digit d then digitpart (acc * 10 + digit d) (S n) s''
            else (acc, n, s)
        | [] => (acc, n, s)
        end
      else (acc, n, s)
  | [] => (acc, n, s)
  end.

Definition sign (s : list ascii) : bool * list ascii :=
  match s with
  | "-"%char :: s' => (true, s')
  | "+"%char :: s' => (false, s')
  | _ => (false, s)
  end.

(** [e] or [E], a sign and digits; no exponent reads as 0. *)
Definition exponent_part (s : list ascii) : option (Z * list ascii) :=
  match s with
  | c :: s' =>
      if Ascii.eqb (lower c) "e" then
        let '(neg, s'') := sign s' in
        match digitpart 0 0 s'' with
        | (_, O, _) => None
        | (e, _, rest) => Some (if neg then (- Z.of_N e)%Z else Z.of_N e, rest)
        end
      else Some (0%Z, s)
  | [] => Some (0%Z, s)
  end.

(** An integer part, a fraction and an exponent, with at least one digit
    before the exponent. *)
Definition decimal (neg : bool) (s : list ascii) : option (float * bool * list ascii) :=
  let '(int, n1, s1) := digitpart 0 0 s in
  let '(frac, n2, s2, dotted) :=
    match s1 with
    | "."%char :: s1' =>
        let '(frac, n2, s2) := digitpart 0 0 s1' in
        (frac, n2, s2, true)
    | _ => (0%N, O, s1, false)
    end in
  if bool_decide (n1 + n2 = 0) then None
  else
    match exponent_part s2 with
    | Some (e, rest) =>
        Some (Finite neg (int * 10 ^ N.of_nat n2 + frac) (e - Z.of_nat n2),
              dotted || negb (bool_decide (s2 = rest)), rest)
    | None => None
    end.

Definition of_str_chars (s : list ascii) : option float :=
  let '(neg, body) := sign (strip s) in
  let name := string_of_list_ascii (map lower body) in
  if bool_decide (name = "inf" ∨ name = "infinity") then Some (Inf neg)
  else if bool_decide (name = "nan") then Some NaN
  else
    match decimal neg body with
    | Some (x, _, []) => Some x
    | _ => None
    end.

Definition of_str (s : string) : option float :=
  of_str_chars (list_ascii_of_string s).

Definition int_of_str (s : string) : option Z :=
  let '(neg, body) := sign (strip (list_ascii_of_string s)) in
  match digitpart 0 0 body with
  | (_, O, _) => None
  | (n, _, []) => Some (if neg then (- Z.of_N n)%Z else Z.of_N n)
  | _ => None
  end.

#[export] Instance exact_num : Num := {|
  pyfloat := float;
  float_of_str := of_str;
  float_of_int := of_int;
  float_bool := nonzero;
  Py.int_of_str := int_of_str;
  float_zero := Finite false 0 0;
  float_of_int_0 := eq_refl;
  float_zero_falsy := eq_refl
|}.

(** *** JSON text *)

Fixpoint skip_ws (s : list ascii) : list ascii :=
  match s with
  | c :: s' =>
      let n := nat_of_ascii c in
      if ((n =? 32) || (n =? 9) || (n =? 10) || (n =? 13))%nat then skip_ws s' else s
  | [] => []
  end.

(** Plain digits: the value, how many there are, and the rest. *)
Fixpoint digits (acc : N) (n : nat) (s : list ascii) : N * nat * list ascii :=
  match s with
  | c :: s' => if is_digit c then digits (acc * 10 + digit c) (S n) s' else (acc, n, s)
  | [] => (acc, n, s)
  end.

(** A JSON number: an [int] without fraction and exponent, else a
    [float]. *)
Definition number (s : list ascii) : option (json * list ascii) :=
  let '(neg, s0) :=
    match s with
    | "-"%char :: s' => (true, s')
    | _ => (false, s)
    end in
  let '(int, n1, s1) := digits 0 0 s0 in
  let leading_zero :=
    match s0 with
    | "0"%char :: _ => bool_decide (n1 ≠ 1)
    | _ => false
    end in
  if bool_decide (n1 = 0) || leading_zero then None
  else
    let frac_part :=
      match s1 with
      | "."%char :: s1' =>
          match digits 0 0 s1' with
          | (_, O, _) => None
          | (frac, n2, s2) => Some (frac, n2, s2, true)
          end
      | _ => Some (0%N, O, s1, false)
      end in
    match frac_part with
    | None => None
    | Some (frac, n2, s2, dotted) =>
        match exponent_part s2 with
        | None => None
        | Some (e, rest) =>
            if dotted || negb (bool_decide (s2 = rest)) then
              Some (JFloat (Finite neg (int * 10 ^ N.of_nat n2 + frac) (e - Z.of_nat n2)),
                    rest)
            else
              Some (JInt (if neg then - Z.of_N int else Z.of_N int)%Z, rest)
        end
    end.

(** The characters of a string after its opening quote, up to the
    closing one. *)
Fixpoint string_body (s : list ascii) : option (string * list ascii) :=
  match s with
  | [] => None
  | "034"%char :: rest => Some ("", rest)
  | "092"%char :: c :: s' =>
      let unescaped :=
        match c with
        | "034"%char | "092"%char | "/"%char => Some c
        | "b"%char => Some (ascii_of_nat 8)
        | "f"%char => Some (ascii_of_nat 12)
        | "n"%char => Some (ascii_of_nat 10)
        | "r"%char => Some (ascii_of_nat 13)
        | "t"%char => Some (ascii_of_nat 9)
        | _ => None
        end in
      match unescaped, string_body s' with
      | Some c', Some (str, rest) => Some (String c' str, rest)
      | _, _ => None
      end
  | c :: s' =>
      if (nat_of_ascii c <? 32)%nat then None
      else
        match string_body s' with
        | Some (str, rest) => Some (String c str, rest)
        | None => None
        end
  end.

(** [d[k] = v] on the items of a dict. *)
Fixpoint dict_set (k : string) (v : json) (items : list (string * json))
    : list (string * json) :=
  match items with
  | [] => [(k, v)]
  | (k', v') :: items' =>
      if String.eqb k k' then (k, v) :: items' else (k', v') :: dict_set k v items'
  end.

Definition literal (name : string) (v : json) (s : list ascii)
    : option (json * list ascii) :=
  let n := String.length name in
  if bool_decide (take n s = list_ascii_of_string name) then Some (v, drop n s) else None.

Fixpoint value (fuel : nat) (s : list ascii) : option (json * list ascii) :=
  match fuel with
  | O => None
  | S fuel' =>
      match skip_ws s with
      | "{"%char :: s1 =>
          match skip_ws s1 with
          | "}"%char :: s2 => Some (JDict [], s2)
          | _ => members fuel' s1 []
          end
      | "["%char :: s1 =>
          match skip_ws s1 with
          | "]"%char :: s2 => Some (JList [], s2)
          | _ => elements fuel' s1 []
          end
      | "034"%char :: s1 =>
          match string_body s1 with
          | Some (str, rest) => Some (JStr str, rest)
          | None => None
          end
      | "t"%char :: _ => literal "true" (JBool true) (skip_ws s)
      | "f"%char :: _ => literal "false" (JBool false) (skip_ws s)
      | "n"%char :: _ => literal "null" JNull (skip_ws s)
      | "N"%char :: _ => literal "NaN" (JFloat NaN) (skip_ws s)
      | "I"%char :: _ => literal "Infinity" (JFloat (Inf false)) (skip_ws s)
      | "-"%char :: "I"%char :: _ => literal "-Infinity" (JFloat (Inf true)) (skip_ws s)
      | s0 => number s0
      end
  end
with members (fuel : nat) (s : list ascii) (acc : list (string * json))
    : option (json * list ascii) :=
  match fuel with
  | O => None
  | S fuel' =>
      match skip_ws s with
      | "034"%char :: s1 =>
          match string_body s1 with
          | Some (k, s2) =>
              match skip_ws s2 with
              | ":"%char :: s3 =>
                  match value fuel' s3 with
                  | Some (v, s4) =>
                      match skip_ws s4 with
                      | ","%char :: s5 => members fuel' s5 (dict_set k v acc)
                      | "}"%char :: s5 => Some (JDict (dict_set k v acc), s5)
                      | _ => None
                      end
                  | None => None
                  end
              | _ => None
              end
          | None => None
          end
      | _ => None
      end
  end
with elements (fuel : nat) (s : list ascii) (acc : list json)
    : option (json * list ascii) :=
  match fuel with
  | O => None
  | S fuel' =>
      match value fuel' s with
      | Some (v, s1) =>
          match skip_ws s1 with
          | ","%char :: s2 => elements fuel' s2 (acc ++ [v])
          | "]"%char :: s2 => Some (JList (acc ++ [v]), s2)
          | _ => None
          end
      | None => None
      end
  end.

(** A whole document: one value, then only white space. *)
Definition loads (s : string) : option json :=
  let chars := list_ascii_of_string s in
  match value (S (length chars)) chars with
  | Some (v, rest) => if bool_decide (skip_ws rest = []) then Some v else None
  | None => None
  end.

#[export] Instance exact_json : Json := {| json_loads := loads |}.

End Exact.

(** ** An in-memory Redis

    The keys in the order [KEYS] scans them, each with a hash or a sorted
    set.  The client built from it answers as the server does: a missing
    key reads as an empty hash or an empty range, a key of the other type
    is a [WRONGTYPE] error, and a range comes in ascending score order,
    members of equal score in lexical order. *)

Module Keyspace.

Inductive value :=
| Hash (fields : gmap string string)
| SortedSet (entries : list (string * Z)).

Definition t : Type := list (string * value).

Fixpoint find (key : string) (db : t) : option value :=
  match db with
  | [] => None
  | (k, v) :: db' => if String.eqb key k then Some v else find key db'
  end.

(** Glob matching with a [*] at the end of the pattern only. *)
Fixpoint glob (pattern key : string) : bool :=
  match pattern with
  | EmptyString => bool_decide (key = "")
  | String "*" EmptyString => true
  | String c pattern' =>
      match key with
      | String k key' => Ascii.eqb c k && glob pattern' key'
      | EmptyString => false
      end
  end.

Definition wrongtype : string :=
  "WRONGTYPE Operation against a key holding the wrong kind of value".

Definition score_leb (a b : string * Z) : bool :=
  (a.2 <? b.2)%Z || ((a.2 =? b.2)%Z && String.leb a.1 b.1).

(** How the client library hands over [ZRANGE ... WITHSCORES]. *)
Inductive reply_shape :=
| Flat
| Tuples.

Definition decimal (n : Z) : string :=
  DecimalString.NilZero.string_of_int (Z.to_int n).

Section Client.
Context `{Num}.

Definition encode (shape : reply_shape) (entries : list (string * Z)) : list Redis.zitem :=
  match shape with
  | Flat => '(member, score) ← entries; [Redis.ZStr member; Redis.ZStr (decimal score)]
  | Tuples =>
      (λ '(member, score),
         Redis.ZTuple member (default float_zero (float_of_int score))) <$> entries
  end.

Definition client (shape : reply_shape) (db : t) : Redis.client :=
  {| Redis.keys := λ pattern, Ok (filter (λ key, glob pattern key) (db.*1));
     Redis.hgetall := λ key,
       match find key db with
       | Some (Hash fields) => Ok fields
       | Some (SortedSet _) => Error wrongtype
       | None => Ok ∅
       end;
     Redis.zrange_withscores := λ key,
       match find key db with
       | Some (SortedSet entries) => Ok (encode shape (Order.sort_by score_leb entries))
       | Some (Hash _) => Error wrongtype
       | None => Ok []
       end |}.

(** A server that cannot be reached. *)
Definition unreachable : Redis.client :=
  {| Redis.keys := λ _, Error "Connection refused";
     Redis.hgetall := λ _, Error "Connection refused";
     Redis.zrange_withscores := λ _, Error "Connection refused" |}.

End Client.

End Keyspace.

(** ** The refresh, as the specification words it *)

Section Specification.
Context `{Json}.

(** The keys [fetch_and_cache_vehicles] fetches: those without [:track]. *)
Definition live_keys (all_keys : list string) : list string :=
  filter (λ key, negb (contains ":track" key)) all_keys.

(** The second component of a key [vehicle:<id>]. *)
Definition vehicle_id (key : string) : string :=
  default "" (split ":" key !! 1).

(** The filter law: the status is ["active"], both coordinates are there
    and parse to [lat] and [lng], and neither is zero. *)
Definition qualifies (data : gmap string string) (lat lng : pyfloat) : Prop :=
  data !! "status" = Some "active"
  ∧ (∃ s, data !! "latitude" = Some s ∧ float_of_str s = Some lat)
  ∧ (∃ s, data !! "longitude" = Some s ∧ float_of_str s = Some lng)
  ∧ float_bool lat = true
  ∧ float_bool lng = true.

(** The compact projection of a record: the bearing is the adjusted one
    if present, else the raw one, else ["0"]. *)
Definition projection (key : string) (data : gmap string string) (lat lng : pyfloat)
    : Vehicle.t :=
  {| Vehicle.id := vehicle_id key;
     Vehicle.lat := lat;
     Vehicle.lng := lng;
     Vehicle.rsn := default "N/A" (data !! "route_short_name");
     Vehicle.lp := default "" (data !! "license_plate");
     Vehicle.tid := default "" (data !! "trip_id");
     Vehicle.br :=
       match data !! "two_shape_bearing", data !! "bearing" with
       | Some adjusted, _ => adjusted
       | None, Some raw => raw
       | None, None => "0"
       end |}.

(** The detail object of a stored hash: each field under its short name,
    with its default where the hash lacks it. *)
Definition vehicle_detail (vehicle_id : string) (data : gmap string string)
    (lat lng : pyfloat) : VehicleDetail.t :=
  let field name fallback := default fallback (data !! name) in
  {| VehicleDetail.id := vehicle_id;
     VehicleDetail.lat := lat;
     VehicleDetail.lng := lng;
     VehicleDetail.lp := field "license_plate" "";
     VehicleDetail.r := field "route_id" "N/A";
     VehicleDetail.rsn := field "route_short_name" "N/A";
     VehicleDetail.rln := field "route_long_name" "";
     VehicleDetail.s := field "stop_id" "N/A";
     VehicleDetail.sn := field "stop_name" "";
     VehicleDetail.cs := field "current_status" "";
     VehicleDetail.th := field "trip_headsign" "";
     VehicleDetail.sp := field "speed" "";
     VehicleDetail.br := field "two_shape_bearing" (field "bearing" "");
     VehicleDetail.ts := field "timestamp" "";
     VehicleDetail.lu := field "last_updated" "";
     VehicleDetail.tid := field "trip_id" "";
     VehicleDetail.di := field "direction_id" "";
     VehicleDetail.sst := field "scheduled_start_time" "";
     VehicleDetail.set := field "scheduled_end_time" "";
     VehicleDetail.ast := field "actual_start_time" "" |}.

(** A backend fetch of the refresh fails: the key scan, or the read of
    one of the live keys. *)
Definition fetch_fails (redis_client : Redis.client) : Prop :=
  (∃ msg, Redis.keys redis_client "vehicle:*" = Error msg)
  ∨ (∃ all_keys key msg,
       Redis.keys redis_client "vehicle:*" = Ok all_keys
       ∧ key ∈ live_keys all_keys
       ∧ Redis.hgetall redis_client key = Error msg).

(** What a record adds to the snapshot. *)
Definition added (redis_client : Redis.client) (key : string) : list Vehicle.t :=
  match Redis.hgetall redis_client key with
  | Ok data =>
      match fetch_iteration key data [] with
      | Return vehicles => vehicles
      | Raise _ => []
      end
  | Error _ => []
  end.

(** The snapshot a refresh installs when its [try] block runs to the
    end. *)
Definition completed_snapshot (redis_client : Redis.client) : option (list Vehicle.t) :=
  match fetch_and_cache_vehicles_try redis_client initial with
  | (Return _, st) => Some (vehicle_cache st)
  | (Raise _, _) => None
  end.

(** What happens to the running service: a refresh against Redis as it
    answers then, a load of the stops, a client connecting or leaving, and
    the Socket.IO manager changing its rooms. *)
Inductive action :=
| Refresh (redis_client : Redis.client)
| LoadStops (db_pool : Pg.pool)
| Connect (sid : string)
| Disconnect (sid : string)
| Registry (rooms : gmap string (gmap (option string) (gset string))).

Definition set_rooms (r : gmap string (gmap (option string) (gset string))) : io unit :=
  λ st, (Return tt,
         {| vehicle_cache := vehicle_cache st; stops_cache := stops_cache st;
            stop_details_cache := stop_details_cache st; rooms := r;
            effects := effects st |}).

Definition act (a : action) : io unit :=
  match a with
  | Refresh redis_client => fetch_and_cache_vehicles redis_client
  | LoadStops db_pool => load_and_cache_stops db_pool
  | Connect sid => connect sid
  | Disconnect sid => disconnect sid
  | Registry r => set_rooms r
  end.

Fixpoint run (history : list action) (st : app) : app :=
  match history with
  | [] => st
  | a :: history' => run history' (act a st).2
  end.

(** The snapshot of the latest refresh of a history that completed;
    [current] before any has. *)
Fixpoint latest_snapshot (history : list action) (current : list Vehicle.t)
    : list Vehicle.t :=
  match history with
  | [] => current
  | Refresh redis_client :: history' =>
      latest_snapshot history' (default current (completed_snapshot redis_client))
  | _ :: history' => latest_snapshot history' current
  end.

(** A route serves a stop when a stop time of one of its trips is at the
    stop; [route] is its short name. *)
Definition serves (db : Pg.database) (stop_id route : string) : Prop :=
  ∃ st t r,
    st ∈ Pg.stop_times db ∧ t ∈ Pg.trips db ∧ r ∈ Pg.routes db
    ∧ stop_times.stop_id st = stop_id
    ∧ stop_times.trip_id st = trips.trip_id t
    ∧ trips.route_id t = routes.route_id r
    ∧ routes.route_short_name r = Some route.

(** The serving-route label of a stop: the short names of the routes
    that serve it, each once, in ascending lexical order, joined with a
    comma and a space. *)
Definition is_route_label (db : Pg.database) (stop_id label : string) : Prop :=
  ∃ names,
    label = Py.join ", " names
    ∧ StronglySorted (λ a b, String.ltb a b = true) names
    ∧ ∀ route, route ∈ names ↔ serves db stop_id route.

End Specification.

(** ** Sample data *)

Module Sample.
Import Exact.

(** JSON text is written with ['] for the double quote. *)
Definition jsn (s : string) : string :=
  string_of_list_ascii
    ((λ c, if Ascii.eqb c "'" then "034"%char else c) <$> list_ascii_of_string s).

(** Three vehicles and a track: one active with a fix, one inactive, one
    active without a fix. *)
Definition fleet : Keyspace.t :=
  [ ("vehicle:1201",
     Keyspace.Hash {[ "status" := "active"; "latitude" := "38.7169";
                      "longitude" := "-9.1399"; "route_short_name" := "15E";
                      "license_plate" := "AA-00-BB"; "trip_id" := "T1";
                      "bearing" := "90" ]});
    ("vehicle:1201:track",
     Keyspace.SortedSet [ (jsn "{'latitude': 38.7169, 'longitude': -9.1399}", 1700000030%Z);
                          (jsn "{'latitude': 38.7160, 'longitude': -9.1390}", 1700000000%Z) ]);
    ("vehicle:1202",
     Keyspace.Hash {[ "status" := "inactive"; "latitude" := "38.72";
                      "longitude" := "-9.15" ]});
    ("vehicle:1203",
     Keyspace.Hash {[ "status" := "active"; "latitude" := "0";
                      "longitude" := "0" ]}) ].

(** A sorted set under a key that the [:track] test does not exclude. *)
Definition mistyped : Keyspace.t :=
  [ ("vehicle:1201",
     Keyspace.Hash {[ "status" := "active"; "latitude" := "38.7169";
                      "longitude" := "-9.1399" ]});
    ("vehicle:history",
     Keyspace.SortedSet [ (jsn "{'latitude': 38.7169, 'longitude': -9.1399}", 1700000030%Z) ]) ].

(** A hash whose latitude is not a number, and one without coordinates. *)
Definition odd_hashes : Keyspace.t :=
  [ ("vehicle:1204",
     Keyspace.Hash {[ "status" := "active"; "latitude" := "abc";
                      "longitude" := "-9.1399" ]});
    ("vehicle:1205",
     Keyspace.Hash {[ "status" := "inactive"; "route_short_name" := "728" ]}) ].

(** Five track entries, written in no particular order; the one scored
    1700000060 has [null] for its latitude. *)
Definition track_with_null : Keyspace.t :=
  [ ("vehicle:1300:track",
     Keyspace.SortedSet
       [ (jsn "{'latitude': 38.7203, 'longitude': -9.1433}", 1700000090%Z);
         (jsn "{'latitude': 38.7169, 'longitude': -9.1399}", 1700000000%Z);
         (jsn "{'latitude': null, 'longitude': -9.1421}", 1700000060%Z);
         (jsn "{'latitude': 38.7214, 'longitude': -9.1444}", 1700000120%Z);
         (jsn "{'latitude': 38.7181, 'longitude': -9.1410}", 1700000030%Z) ]) ].

(** The same five, the one scored 1700000060 cut short. *)
Definition track_with_garbage : Keyspace.t :=
  [ ("vehicle:1300:track",
     Keyspace.SortedSet
       [ (jsn "{'latitude': 38.7203, 'longitude': -9.1433}", 1700000090%Z);
         (jsn "{'latitude': 38.7169, 'longitude': -9.1399}", 1700000000%Z);
         (jsn "{'latitude': 38.71", 1700000060%Z);
         (jsn "{'latitude': 38.7214, 'longitude': -9.1444}", 1700000120%Z);
         (jsn "{'latitude': 38.7181, 'longitude': -9.1410}", 1700000030%Z) ]) ].

(** A stop served by trips of routes B, A, C and B again, and one that no
    trip serves. *)
Definition network : Pg.database :=
  {| Pg.stops :=
       [ {| stops.stop_id := "S1"; stops.stop_name := "Rossio";
            stops.stop_lat := Some (Finite false 387139 (-4));
            stops.stop_lon := Some (Finite true 91394 (-4)) |};
         {| stops.stop_id := "S2"; stops.stop_name := "Depot";
            stops.stop_lat := Some (Finite false 387500 (-4));
            stops.stop_lon := Some (Finite true 91500 (-4)) |} ];
     Pg.routes :=
       [ routes.mk "RB" (Some "B"); routes.mk "RA" (Some "A");
         routes.mk "RC" (Some "C") ];
     Pg.trips :=
       [ trips.mk "T1" "RB" None (Some 0%Z); trips.mk "T2" "RA" None (Some 0%Z);
         trips.mk "T3" "RC" None (Some 1%Z); trips.mk "T4" "RB" None (Some 1%Z) ];
     Pg.stop_times :=
       [ stop_times.mk "T1" "S1" 3; stop_times.mk "T2" "S1" 1;
         stop_times.mk "T3" "S1" 7; stop_times.mk "T4" "S1" 2 ];
     Pg.shapes := [] |}.

(** [n] points of a shape, in sequence. *)
Definition polyline (shape_id : string) (n : nat) : list shapes.row :=
  (λ k, {| shapes.shape_id := shape_id;
           shapes.shape_pt_lat := Finite false (387000 + N.of_nat k) (-4);
           shapes.shape_pt_lon := Finite true (91000 + N.of_nat k) (-4);
           shapes.shape_pt_sequence := Z.of_nat k |})
  <$> seq 1 n.

(** Route 758 with its direction 0 trips on two shapes: [S1] with 40
    points, used by [s1_trips] trips, and [S2] with 10 points, used by
    [s2_trips] trips. *)
Definition route_758 (s1_trips s2_trips : nat) : Pg.database :=
  {| Pg.stops := [];
     Pg.routes := [ routes.mk "R758" (Some "758") ];
     Pg.trips :=
       ((λ k, trips.mk ("A" +:+ Keyspace.decimal (Z.of_nat k)) "R758" (Some "S1") (Some 0%Z))
          <$> seq 1 s1_trips)
       ++ ((λ k, trips.mk ("B" +:+ Keyspace.decimal (Z.of_nat k)) "R758" (Some "S2") (Some 0%Z))
             <$> seq 1 s2_trips);
     Pg.stop_times := [];
     Pg.shapes := polyline "S1" 40 ++ polyline "S2" 10 |}.

End Sample.

(** ** The handlers that read the database only

    [get_stops_for_trip], [get_stops_for_route], [get_shape_for_trip] and
    [get_shapes_for_stop] use no global but [db_pool]: a call is its
    outcome together with what it prints. *)

Inductive query_line :=
| ErrorFetchingStopsForTrip (error : exn)
| ErrorFetchingStopsForRoute (error : exn)
| ErrorFetchingShape (error : exn)
| ErrorFetchingShapesForStop (error : exn).

Definition logged (A : Type) : Type := result A * list query_line.

(** [try: body / except Exception as error: print(...); raise
    HTTPException(status_code=500, detail=detail)] *)
Definition or_500 {A} (body : result A) (printed : exn → query_line) (detail : string)
    : logged A :=
  match body with
  | Return a => (Return a, [])
  | Raise error =>
      if is_Exception error then (Raise (HTTPException 500 detail), [printed error])
      else (Raise error, [])
  end.

(** An element of [/api/shapes/stop/{stop_id}]; a point is the pair of
    its ['lat'] and ['lng']. *)
Module StopShape.
Record t `{Num} := mk {
  route : option string;
  points : list (pyfloat * pyfloat)
}.
End StopShape.

(** The answer of [/]. *)
Module Health.
Record t := mk {
  status : string;
  message : string;
  version : string;
  vehicles : nat;
  stops : nat
}.
End Health.

Section Lookups.
Context `{Json}.

(** [SELECT DISTINCT stop_id, stop_sequence FROM stop_times WHERE trip_id
    = $1 ORDER BY stop_sequence] *)
Definition stops_for_trip_query (db : Pg.database) (trip_id : string)
    : list (string * Z) :=
  Sql.order_by (λ a b, (a.2 <=? b.2)%Z)
    (remove_dups
       ((λ st, (stop_times.stop_id st, stop_times.stop_sequence st))
        <$> filter (λ st, stop_times.trip_id st = trip_id) (Pg.stop_times db))).

Definition get_stops_for_trip (db_pool : Pg.pool) (trip_id : string)
    : logged (list string) :=
  or_500
    (db ← Pg.await db_pool;
     Return ((λ row, row.1) <$> stops_for_trip_query db trip_id))
    ErrorFetchingStopsForTrip "Failed to fetch stops".

(** The [FROM stops s JOIN stop_times st ... JOIN trips t ... JOIN routes
    r ...] of [get_stops_for_route]. *)
Definition stops_of_routes (db : Pg.database)
    : list (stops.row * stop_times.row * trips.row * routes.row) :=
  Sql.join
    (λ '(s, st, t) r, bool_decide (trips.route_id t = routes.route_id r))
    (Sql.join
       (λ '(s, st) t, bool_decide (stop_times.trip_id st = trips.trip_id t))
       (Sql.join
          (λ s st, bool_decide (stops.stop_id s = stop_times.stop_id st))
          (Pg.stops db) (Pg.stop_times db))
       (Pg.trips db))
    (Pg.routes db).

(** [SELECT DISTINCT s.stop_id ... WHERE r.route_short_name = $1] *)
Definition stops_for_route_query (db : Pg.database) (route_short_name : string)
    : list string :=
  remove_dups
    ((λ '(s, st, t, r), stops.stop_id s)
     <$> filter (λ '(s, st, t, r), routes.route_short_name r = Some route_short_name)
           (stops_of_routes db)).

Definition get_stops_for_route (db_pool : Pg.pool) (route_short_name : string)
    : logged (list string) :=
  or_500
    (db ← Pg.await db_pool;
     Return (stops_for_route_query db route_short_name))
    ErrorFetchingStopsForRoute "Failed to fetch stops".

(** [SELECT shape_id FROM trips WHERE trip_id = $1 LIMIT 1], through
    [fetchrow]: the [shape_id] of the row that comes first, if any. *)
Definition trip_shape_query (db : Pg.database) (trip_id : string)
    : option (option string) :=
  head (trips.shape_id <$> filter (λ t, trips.trip_id t = trip_id) (Pg.trips db)).

(** The [try] block of [get_shape_for_trip]; [not row['shape_id']] holds
    for [NULL] and for the empty string. *)
Definition get_shape_for_trip_try (db_pool : Pg.pool) (trip_id : string)
    : result (list (pyfloat * pyfloat)) :=
  db ← Pg.await db_pool;
  match trip_shape_query db trip_id with
  | None | Some None => Return []
  | Some (Some shape_id) =>
      if bool_decide (shape_id = "") then Return []
      else Return (point_list (points_query db (Some shape_id)))
  end.

Definition get_shape_for_trip (db_pool : Pg.pool) (trip_id : string)
    : logged (list (pyfloat * pyfloat)) :=
  or_500 (get_shape_for_trip_try db_pool trip_id)
    ErrorFetchingShape "Failed to fetch shape".

(** [SELECT DISTINCT t.shape_id, r.route_short_name FROM stop_times st
    JOIN trips t ... JOIN routes r ... WHERE st.stop_id = $1 AND
    t.shape_id IS NOT NULL] *)
Definition shapes_for_stop_query (db : Pg.database) (stop_id : string)
    : list (option string * option string) :=
  remove_dups
    ((λ '(st, t, r), (trips.shape_id t, routes.route_short_name r))
     <$> filter
           (λ '(st, t, r), stop_times.stop_id st = stop_id ∧ trips.shape_id t ≠ None)
           (Sql.join
              (λ '(st, t) r, bool_decide (trips.route_id t = routes.route_id r))
              (Sql.join
                 (λ st t, bool_decide (stop_times.trip_id st = trips.trip_id t))
                 (Pg.stop_times db) (Pg.trips db))
              (Pg.routes db))).

(** The body of the [for shape_info in shape_rows] loop. *)
Definition append_stop_shape (db : Pg.database) (all_shapes : list StopShape.t)
    (shape_info : option string * option string) : list StopShape.t :=
  let points := points_query db shape_info.1 in
  if bool_decide (points = []) then all_shapes
  else all_shapes ++ [{| StopShape.route := shape_info.2;
                         StopShape.points := point_list points |}].

(** The [try] block of [get_shapes_for_stop]. *)
Definition get_shapes_for_stop_try (db_pool : Pg.pool) (stop_id : string)
    : result (list StopShape.t) :=
  db ← Pg.await db_pool;
  let shape_rows := shapes_for_stop_query db stop_id in
  if bool_decide (shape_rows = []) then Return []
  else Return (foldl (append_stop_shape db) [] shape_rows).

Definition get_shapes_for_stop (db_pool : Pg.pool) (stop_id : string)
    : logged (list StopShape.t) :=
  or_500 (get_shapes_for_stop_try db_pool stop_id)
    ErrorFetchingShapesForStop "Failed to fetch shapes".

(** [root], the health check. *)
Definition root : io Health.t :=
  λ st, (Return {| Health.status := "ok";
                   Health.message := "Carris Backend API";
                   Health.version := "2.0.0";
                   Health.vehicles := length (vehicle_cache st);
                   Health.stops := length (stops_cache st) |},
         st).

(** The Redis key of a vehicle id, as [get_vehicle_details] builds it. *)
Definition vehicle_key (vehicle_id : string) : string := "vehicle:" +:+ vehicle_id.

(** The clients connected in a namespace, as the rooms of the manager
    have them: the sids that are in one of its rooms. *)
Definition connected (rooms : gmap string (gmap (option string) (gset string)))
    (namespace : string) : gset string :=
  ⋃ (map_to_list (default ∅ (rooms !! namespace))).*2.

(** The refreshes of a run of [periodic_vehicle_updates]: one for each
    turn, up to the turn whose sleep is cancelled. *)
Fixpoint refreshes (turns : list turn) : list action :=
  match turns with
  | [] => []
  | t :: turns' =>
      if cancelled t then [] else Refresh (backend t) :: refreshes turns'
  end.

(** A [ZRANGE ... WITHSCORES] reply handed over flat: member, score,
    member, score, and so on. *)
Definition flat_reply (pairs : list (string * string)) : list Redis.zitem :=
  '(member, score) ← pairs; [Redis.ZStr member; Redis.ZStr score].

(** What the loop of [get_vehicle_track] makes of one member and its
    score. *)
Definition track_entry (entry : string * string) : result TrackPoint.t :=
  track_point [Redis.ZStr entry.1; Redis.ZStr entry.2] 0.

End Lookups.

(** ** More sample data *)

Module Fixture.
Import Exact.

(** Tram 28E on shape [P28], whose trip [T28] calls at [S2], [S1], [S3]
    and [S1] again; bus 15E without a shape; a trip whose [shape_id] is
    empty; stop [S3] has no coordinates. *)
Definition trams : Pg.database :=
  {| Pg.stops :=
       [ {| stops.stop_id := "S1"; stops.stop_name := "Rossio";
            stops.stop_lat := Some (Finite false 387139 (-4));
            stops.stop_lon := Some (Finite true 91394 (-4)) |};
         {| stops.stop_id := "S2"; stops.stop_name := "Graca";
            stops.stop_lat := Some (Finite false 387170 (-4));
            stops.stop_lon := Some (Finite true 91310 (-4)) |};
         {| stops.stop_id := "S3"; stops.stop_name := "Estrela";
            stops.stop_lat := None;
            stops.stop_lon := Some (Finite true 91600 (-4)) |} ];
     Pg.routes :=
       [ routes.mk "R28" (Some "28E"); routes.mk "R15" (Some "15E") ];
     Pg.trips :=
       [ trips.mk "T28" "R28" (Some "P28") (Some 0%Z);
         trips.mk "T15" "R15" None (Some 0%Z);
         trips.mk "T15x" "R15" (Some "") (Some 1%Z) ];
     Pg.stop_times :=
       [ stop_times.mk "T28" "S1" 2; stop_times.mk "T28" "S2" 1;
         stop_times.mk "T28" "S3" 3; stop_times.mk "T28" "S1" 4;
         stop_times.mk "T28" "S1" 2; stop_times.mk "T15" "S1" 1 ];
     Pg.shapes := rev (Sample.polyline "P28" 3) |}.

(** Two vehicles with a fix. *)
Definition two_vehicles : Keyspace.t :=
  [ ("vehicle:1",
     Keyspace.Hash {[ "status" := "active"; "latitude" := "38.71";
                      "longitude" := "-9.13" ]});
    ("vehicle:2",
     Keyspace.Hash {[ "status" := "active"; "latitude" := "38.72";
                      "longitude" := "-9.14" ]}) ].

(** Two vehicles with a fix; the id of the second begins with [track]. *)
Definition trackers : Keyspace.t :=
  [ ("vehicle:1201",
     Keyspace.Hash {[ "status" := "active"; "latitude" := "38.7169";
                      "longitude" := "-9.1399" ]});
    ("vehicle:tracker9",
     Keyspace.Hash {[ "status" := "active"; "latitude" := "38.72";
                      "longitude" := "-9.14" ]}) ].

(** The rooms of the manager with one client, [a], connected:
    python-socketio enters a client that connects, before it calls the
    [connect] handler, in the room [None] of all the clients of the
    namespace and in the room named after its sid. *)
Definition one_client : gmap string (gmap (option string) (gset string)) :=
  {[ "/" := {[ None := {[ "a" ]}; Some "a" := {[ "a" ]} ]} ]}.

(** A client whose key scan lists the keys of [client] in reverse. *)
Definition reversed_scan (client : Redis.client) : Redis.client :=
  {| Redis.keys := λ pattern,
       match Redis.keys client pattern with
       | Ok all_keys => Ok (rev all_keys)
       | Error msg => Error msg
       end;
     Redis.hgetall := Redis.hgetall client;
     Redis.zrange_withscores := Redis.zrange_withscores client |}.

(** A client that fails on every read of a key with [:track] in it. *)
Definition without_tracks (client : Redis.client) : Redis.client :=
  {| Redis.keys := Redis.keys client;
     Redis.hgetall := λ key,
       if contains ":track" key then Error Keyspace.wrongtype
       else Redis.hgetall client key;
     Redis.zrange_withscores := Redis.zrange_withscores client |}.

End Fixture.

(** * Properties *)

Import (hints) Exact.

Section Refresh.
Context `{Json}.

Lemma prefix_app (p key : string) :
  String.prefix p key = true → ∃ rest, key = p +:+ rest.
Proof.
  revert key. induction p as [|c p IH]; intros key Hp.
  - by exists key.
  - destruct key as [|k key]; [discriminate Hp|]. simpl in Hp.
    destruct (Ascii.ascii_dec c k) as [->|]; [|discriminate Hp].
    destruct (IH _ Hp) as [rest ->]. by exists rest.
Qed.

Lemma split_nonempty (sep : ascii) (s : string) :
  ∃ w ws, split sep s = w :: ws.
Proof.
  destruct s as [|c s]; cbn; [eauto|].
  destruct (Ascii.eqb c sep); [eauto|].
  destruct (split sep s); eauto.
Qed.

Lemma split_vehicle_key (key : string) :
  String.prefix "vehicle:" key = true →
  is_Some (split ":" key !! 1).
Proof.
  intros [rest ->]%prefix_app. cbv [String.append]. cbn.
  destruct (split_nonempty ":" rest) as (w & ws & ->). cbn. eauto.
Qed.

Lemma float_get_missing (data : gmap string string) (field : string) :
  data !! field = None → float_get data field = Return float_zero.
Proof.
  intros Hm. unfold float_get, float_int. by rewrite Hm, float_of_int_0.
Qed.

Lemma float_get_present (data : gmap string string) (field s : string) :
  data !! field = Some s → float_get data field = float_str s.
Proof. intros Hm. unfold float_get. by rewrite Hm. Qed.

Lemma projection_eq (key : string) (data : gmap string string) (lat lng : pyfloat) id :
  split ":" key !! 1 = Some id →
  {| Vehicle.id := id;
     Vehicle.lat := lat;
     Vehicle.lng := lng;
     Vehicle.rsn := get data "route_short_name" "N/A";
     Vehicle.lp := get data "license_plate" "";
     Vehicle.tid := get data "trip_id" "";
     Vehicle.br := get data "two_shape_bearing" (get data "bearing" "0") |}
  = projection key data lat lng.
Proof.
  intros Hid. unfold projection, vehicle_id, get. rewrite Hid. cbn.
  by destruct (data !! "two_shape_bearing"), (data !! "bearing").
Qed.

(** One iteration appends the projection of a record that qualifies and
    nothing otherwise. *)
Lemma fetch_iteration_filter (key : string) (data : gmap string string)
    (vehicles : list Vehicle.t) :
  is_Some (split ":" key !! 1) →
  ∃ entry : option Vehicle.t,
    fetch_iteration key data vehicles = Return (vehicles ++ option_list entry)
    ∧ ∀ v, entry = Some v ↔
           ∃ lat lng, qualifies data lat lng ∧ v = projection key data lat lng.
Proof.
  intros [id Hid].
  unfold fetch_iteration, index. rewrite Hid. cbn.
  case_bool_decide as Hempty.
  { exists None. rewrite app_nil_r. split; [done|]. intros v. split; [done|].
    intros (lat & lng & (Hs & _) & _). subst data. by rewrite lookup_empty in Hs. }
  case_bool_decide as Hstatus.
  { exists None. rewrite app_nil_r. split; [done|]. intros v. split; [done|].
    intros (lat & lng & (Hs & _) & _). done. }
  unfold float_get, float_str, float_int. rewrite float_of_int_0.
  destruct (data !! "latitude") as [slat|] eqn:Hlat;
    [destruct (float_of_str slat) as [lat|] eqn:Hplat|];
    (destruct (data !! "longitude") as [slng|] eqn:Hlng;
     [destruct (float_of_str slng) as [lng|] eqn:Hplng|]); cbn;
    rewrite ?float_zero_falsy, ?andb_false_r.
  1: destruct (float_bool lat) eqn:Hblat, (float_bool lng) eqn:Hblng; cbn.
  1: { exists (Some (projection key data lat lng)). split.
       - by rewrite (projection_eq _ _ _ _ _ Hid).
       - intros v. split.
         + intros [= <-]. exists lat, lng. split; [|done].
           repeat split; eauto.
         + intros (lat' & lng' & (_ & (s1 & Hs1 & Hp1) & (s2 & Hs2 & Hp2) & _) & ->).
           repeat f_equal; congruence. }
  all: exists None; rewrite app_nil_r; (split; [done|]); intros v; (split; [done|]);
       intros (lat' & lng' & (_ & (s1 & Hs1 & Hp1) & (s2 & Hs2 & Hp2) & Hb1 & Hb2) & _);
       congruence.
Qed.


Lemma fetch_loop_filter (redis_client : Redis.client) (keys : list string)
    (vehicles : list Vehicle.t) :
  (∀ key, key ∈ keys → is_Some (split ":" key !! 1)) →
  (∀ key, key ∈ keys → ∃ data, Redis.hgetall redis_client key = Ok data) →
  ∃ included : list (option Vehicle.t),
    Forall2
      (λ key entry,
         ∀ data, Redis.hgetall redis_client key = Ok data →
           ∀ v, entry = Some v ↔
                ∃ lat lng, qualifies data lat lng ∧ v = projection key data lat lng)
      keys included
    ∧ fetch_loop redis_client keys vehicles = Return (vehicles ++ omap id included).
Proof.
  revert vehicles. induction keys as [|key keys IH]; intros vehicles Hsplit Hfetch.
  { exists []. split; [constructor|]. cbn. by rewrite app_nil_r. }
  destruct (Hfetch key) as [data Hdata]; [left|].
  destruct (fetch_iteration_filter key data vehicles) as (entry & Hiter & Hentry);
    [apply Hsplit; left|].
  destruct (IH (vehicles ++ option_list entry)) as (included & Hall & Hloop).
  { intros k Hk. apply Hsplit. by right. }
  { intros k Hk. apply Hfetch. by right. }
  exists (entry :: included). split.
  - constructor; [|done]. intros data2 Hdata2. rewrite Hdata in Hdata2. injection Hdata2 as <-. exact Hentry.
  - cbn. rewrite Hdata. cbn. rewrite Hiter. cbn. rewrite Hloop.
    rewrite <- app_assoc. by destruct entry.
Qed.

(** What a run of [fetch_and_cache_vehicles] does, case by case. *)
Lemma fetch_and_cache_vehicles_run (redis_client : Redis.client) (st : app) :
  fetch_and_cache_vehicles redis_client st =
  match Redis.keys redis_client "vehicle:*" with
  | Error msg =>
      (Return tt,
       {| vehicle_cache := vehicle_cache st; stops_cache := stops_cache st;
          stop_details_cache := stop_details_cache st; rooms := rooms st;
          effects := effects st ++ [Stdout (ErrorFetchingVehicles (RedisError msg))] |})
  | Ok all_keys =>
      if bool_decide (live_keys all_keys = []) then
        (Return tt,
         {| vehicle_cache := []; stops_cache := stops_cache st;
            stop_details_cache := stop_details_cache st; rooms := rooms st;
            effects := effects st |})
      else
        match fetch_loop redis_client (live_keys all_keys) [] with
        | Return vehicles =>
            (Return tt,
             {| vehicle_cache := vehicles; stops_cache := stops_cache st;
                stop_details_cache := stop_details_cache st; rooms := rooms st;
                effects := effects st ++ [Stdout (CachedVehicles (length vehicles));
                                          Emit "vehicles" (VehicleList vehicles) None] |})
        | Raise error =>
            if is_Exception error then
              (Return tt,
               {| vehicle_cache := vehicle_cache st; stops_cache := stops_cache st;
                  stop_details_cache := stop_details_cache st; rooms := rooms st;
                  effects := effects st ++ [Stdout (ErrorFetchingVehicles error)] |})
            else (Raise error, st)
        end
  end.
Proof.
  unfold fetch_and_cache_vehicles, try_except_Exception, fetch_and_cache_vehicles_try.
  unfold mbind, io_bind, lift, live_keys.
  destruct (Redis.keys redis_client "vehicle:*") as [all_keys|msg]; cbn; [|done].
  case_bool_decide; cbn; [done|].
  destruct (fetch_loop _ _ _) as [vehicles|error]; cbn; [|done].
  by rewrite <- app_assoc.
Qed.


(** X27. On a refresh whose fetches succeed, the new snapshot is, key by
    key over the keys without [:track] in them, in the order of the scan,
    the projection of the record that has status ["active"], both
    coordinates parsing as floats and neither of them zero, and nothing
    for any other record. *)
Theorem refresh_filter_law (redis_client : Redis.client) (all_keys : list string)
    (st : app) :
  Redis.keys redis_client "vehicle:*" = Ok all_keys →
  Forall (λ key, String.prefix "vehicle:" key = true) all_keys →
  Forall (λ key, ∃ data, Redis.hgetall redis_client key = Ok data) (live_keys all_keys) →
  ∃ included : list (option Vehicle.t),
    Forall2
      (λ key entry,
         ∀ data, Redis.hgetall redis_client key = Ok data →
           ∀ v, entry = Some v ↔
                ∃ lat lng, qualifies data lat lng ∧ v = projection key data lat lng)
      (live_keys all_keys) included
    ∧ vehicle_cache (fetch_and_cache_vehicles redis_client st).2 = omap id included.
Proof.
  intros Hkeys Hprefix Hfetch.
  destruct (fetch_loop_filter redis_client (live_keys all_keys) [])
    as (included & Hall & Hloop).
  { intros key Hkey. apply split_vehicle_key.
    rewrite Forall_forall in Hprefix. apply Hprefix.
    unfold live_keys in Hkey. by apply list_elem_of_filter in Hkey as [_ ?]. }
  { by apply Forall_forall. }
  exists included. split; [done|].
  rewrite fetch_and_cache_vehicles_run, Hkeys.
  case_bool_decide as Hnone.
  - rewrite Hnone in Hall. by inversion Hall.
  - by rewrite Hloop.
Qed.



(** X1. The sibling path: with at least one live key, a refresh whose fetches
    succeed logs the count and emits the snapshot to every client, also
    when the snapshot is empty. *)
Lemma refresh_with_keys_publishes (redis_client : Redis.client)
    (all_keys : list string) (vehicles : list Vehicle.t) (st : app) :
  Redis.keys redis_client "vehicle:*" = Ok all_keys →
  live_keys all_keys ≠ [] →
  fetch_loop redis_client (live_keys all_keys) [] = Return vehicles →
  effects (fetch_and_cache_vehicles redis_client st).2
  = effects st ++ [Stdout (CachedVehicles (length vehicles));
                   Emit "vehicles" (VehicleList vehicles) None].
Proof.
  intros Hkeys Hsome Hloop. rewrite fetch_and_cache_vehicles_run, Hkeys.
  rewrite bool_decide_eq_false_2 by done. by rewrite Hloop.
Qed.

(** C2, at the input where the code departs from it. Against a Redis
    without any vehicle key the refresh completes, installs the empty
    snapshot and returns without emitting anything: the effects are those
    from before the call. *)
Theorem refresh_without_keys_emits_nothing (st : app) :
  completed_snapshot (Keyspace.client Keyspace.Flat []) = Some []
  ∧ fetch_and_cache_vehicles (Keyspace.client Keyspace.Flat []) st
    = (Return tt,
       {| vehicle_cache := []; stops_cache := stops_cache st;
          stop_details_cache := stop_details_cache st; rooms := rooms st;
          effects := effects st |}).
Proof. split; [reflexivity|]. by rewrite fetch_and_cache_vehicles_run. Qed.

Lemma fetch_iteration_raises (key : string) (data : gmap string string)
    (vehicles : list Vehicle.t) (error : exn) :
  fetch_iteration key data vehicles = Raise error → error = IndexError.
Proof.
  unfold fetch_iteration, index.
  case_bool_decide; [done|].
  destruct (split ":" key !! 1); cbn; [|congruence].
  case_bool_decide; [done|].
  unfold float_get, float_str, float_int. rewrite float_of_int_0.
  destruct (data !! "latitude") as [slat|]; [destruct (float_of_str slat)|];
    (destruct (data !! "longitude") as [slng|]; [destruct (float_of_str slng)|]);
    cbn; try done.
  all: by destruct (_ && _).
Qed.

Lemma fetch_loop_raises (redis_client : Redis.client) (keys : list string)
    (vehicles : list Vehicle.t) (error : exn) :
  fetch_loop redis_client keys vehicles = Raise error → is_Exception error = true.
Proof.
  revert vehicles. induction keys as [|key keys IH]; intros vehicles; cbn; [done|].
  destruct (Redis.hgetall redis_client key) as [data|msg]; cbn.
  - destruct (fetch_iteration key data vehicles) as [vehicles'|e] eqn:Hiter; cbn.
    + apply IH.
    + intros [= <-]. by rewrite (fetch_iteration_raises _ _ _ _ Hiter).
  - by intros [= <-].
Qed.

Lemma fetch_loop_fails (redis_client : Redis.client) (keys : list string)
    (vehicles : list Vehicle.t) (key msg : string) :
  key ∈ keys →
  Redis.hgetall redis_client key = Error msg →
  ∃ error, fetch_loop redis_client keys vehicles = Raise error.
Proof.
  intros Hkey Hfail. revert vehicles.
  induction keys as [|k keys IH]; intros vehicles; [by apply elem_of_nil in Hkey|].
  cbn. destruct (Redis.hgetall redis_client k) as [data|msg'] eqn:Hk; cbn; [|eauto].
  destruct (fetch_iteration k data vehicles) as [vehicles'|e]; cbn; [|eauto].
  apply IH. apply elem_of_cons in Hkey as [->|Hkey]; [congruence|done].
Qed.

(** No exception leaves [fetch_and_cache_vehicles]. *)
Lemma fetch_and_cache_vehicles_returns (redis_client : Redis.client) (st : app) :
  (fetch_and_cache_vehicles redis_client st).1 = Return tt.
Proof.
  rewrite fetch_and_cache_vehicles_run.
  destruct (Redis.keys redis_client "vehicle:*") as [all_keys|msg]; [|done].
  case_bool_decide; [done|].
  destruct (fetch_loop _ _ _) as [vehicles|error] eqn:Hloop; [done|].
  by rewrite (fetch_loop_raises _ _ _ _ Hloop).
Qed.

(** No exception leaves the loop of [periodic_vehicle_updates]. *)
Lemma periodic_vehicle_updates_returns (turns : list turn) (st : app) :
  (periodic_vehicle_updates turns st).1 = Return tt.
Proof.
  revert st. induction turns as [|t turns IH]; intros st; [done|].
  cbn. unfold sleep, mbind, io_bind, raise.
  destruct (cancelled t); cbn; [done|].
  pose proof (fetch_and_cache_vehicles_returns (backend t) st) as Hret.
  destruct (fetch_and_cache_vehicles (backend t) st) as [outcome st'].
  cbn in Hret. subst outcome. apply IH.
Qed.

(** C3. When a backend fetch of a refresh fails, the call returns
    normally with [vehicle_cache] as it was and one more line on standard
    output, the error; and the loop of [periodic_vehicle_updates] returns
    normally whatever its turns bring. *)
Theorem fetch_error_keeps_snapshot (redis_client : Redis.client) (st : app) :
  fetch_fails redis_client →
  (fetch_and_cache_vehicles redis_client st).1 = Return tt
  ∧ vehicle_cache (fetch_and_cache_vehicles redis_client st).2 = vehicle_cache st
  ∧ (∃ error,
       effects (fetch_and_cache_vehicles redis_client st).2
       = effects st ++ [Stdout (ErrorFetchingVehicles error)])
  ∧ ∀ (turns : list turn) (st0 : app),
      (periodic_vehicle_updates turns st0).1 = Return tt.
Proof.
  intros Hfails. split; [apply fetch_and_cache_vehicles_returns|].
  split; [|split; [|apply periodic_vehicle_updates_returns]].
  all: rewrite fetch_and_cache_vehicles_run.
  all: destruct Hfails as [[msg Hkeys]|(all_keys & key & msg & Hkeys & Hkey & Hget)];
    rewrite Hkeys; cbn; eauto.
  all: destruct (fetch_loop_fails redis_client _ [] _ _ Hkey Hget) as [error Hloop].
  all: rewrite bool_decide_eq_false_2
    by (intros Hnil; rewrite Hnil in Hkey; by apply elem_of_nil in Hkey).
  all: rewrite Hloop, (fetch_loop_raises _ _ _ _ Hloop); cbn; eauto.
Qed.

(** After a refresh the cache holds the snapshot the refresh completed
    with, or what it held before. *)
Lemma cache_after_refresh (redis_client : Redis.client) (st : app) :
  vehicle_cache (fetch_and_cache_vehicles redis_client st).2
  = default (vehicle_cache st) (completed_snapshot redis_client).
Proof.
  rewrite fetch_and_cache_vehicles_run. unfold completed_snapshot.
  unfold fetch_and_cache_vehicles_try, mbind, io_bind, lift. fold live_keys.
  destruct (Redis.keys redis_client "vehicle:*") as [all_keys|msg]; cbn; [|done].
  fold (live_keys all_keys).
  case_bool_decide; cbn; [done|].
  destruct (fetch_loop _ _ _) as [vehicles|error]; cbn; [done|].
  by destruct (is_Exception error).
Qed.

(** C8. A second refresh against the same Redis replies leaves the
    snapshot of the first. *)
Theorem refresh_idempotent (redis_client : Redis.client) (st : app) :
  let once := (fetch_and_cache_vehicles redis_client st).2 in
  let twice := (fetch_and_cache_vehicles redis_client once).2 in
  vehicle_cache twice = vehicle_cache once.
Proof.
  cbn. rewrite !cache_after_refresh.
  by destruct (completed_snapshot redis_client).
Qed.

Lemma fetch_iteration_app (key : string) (data : gmap string string)
    (vehicles : list Vehicle.t) :
  is_Some (split ":" key !! 1) →
  ∃ more, fetch_iteration key data [] = Return more
          ∧ fetch_iteration key data vehicles = Return (vehicles ++ more).
Proof.
  intros Hid.
  destruct (fetch_iteration_filter key data [] Hid) as (e0 & Hnil & Hspec0).
  destruct (fetch_iteration_filter key data vehicles Hid) as (e & He & Hspec).
  exists (option_list e0). split; [done|]. rewrite He.
  assert (e = e0) as ->; [|done].
  destruct e0 as [v0|].
  - apply (Hspec v0), (Hspec0 v0). done.
  - destruct e as [v|]; [|done]. symmetry. apply (Hspec0 v), (Hspec v). done.
Qed.

Lemma fetch_loop_added (redis_client : Redis.client) (keys : list string)
    (vehicles : list Vehicle.t) :
  Forall (λ key, String.prefix "vehicle:" key = true) keys →
  Forall (λ key, ∃ data, Redis.hgetall redis_client key = Ok data) keys →
  fetch_loop redis_client keys vehicles
  = Return (vehicles ++ keys ≫= added redis_client).
Proof.
  intros Hprefix Hfetch. revert vehicles.
  induction keys as [|key keys IH]; intros vehicles; cbn.
  { by rewrite app_nil_r. }
  apply Forall_cons in Hprefix as [Hkey Hprefix].
  apply Forall_cons in Hfetch as [[data Hdata] Hfetch].
  destruct (fetch_iteration_app key data vehicles) as (more & Hmore & Hiter);
    [by apply split_vehicle_key|].
  unfold added at 1. rewrite Hdata, Hmore. cbn. rewrite Hiter. cbn.
  rewrite IH by done. by rewrite <- app_assoc.
Qed.

Lemma completed_snapshot_added (redis_client : Redis.client) (all_keys : list string) :
  Redis.keys redis_client "vehicle:*" = Ok all_keys →
  Forall (λ key, String.prefix "vehicle:" key = true) all_keys →
  Forall (λ key, ∃ data, Redis.hgetall redis_client key = Ok data) (live_keys all_keys) →
  completed_snapshot redis_client = Some (live_keys all_keys ≫= added redis_client).
Proof.
  intros Hkeys Hprefix Hfetch.
  assert (Hprefix' : Forall (λ key, String.prefix "vehicle:" key = true)
                       (live_keys all_keys)).
  { rewrite Forall_forall in Hprefix |- *. intros key Hkey. apply Hprefix.
    unfold live_keys in Hkey. by apply list_elem_of_filter in Hkey as [_ ?]. }
  unfold completed_snapshot, fetch_and_cache_vehicles_try, mbind, io_bind, lift.
  rewrite Hkeys. cbn. fold (live_keys all_keys).
  destruct (bool_decide (live_keys all_keys = [])) eqn:Hnil.
  - apply bool_decide_eq_true in Hnil. rewrite Hnil. reflexivity.
  - by rewrite (fetch_loop_added _ _ [] Hprefix' Hfetch).
Qed.

(** X2. The order in which [KEYS] lists the keys only permutes the snapshot:
    two Redis clients over the same hashes, whose key scans are
    permutations of each other, complete with snapshots that are
    permutations of each other. *)
Lemma refresh_up_to_key_order (redis_client redis_client' : Redis.client)
    (all_keys all_keys' : list string) :
  Redis.keys redis_client "vehicle:*" = Ok all_keys →
  Redis.keys redis_client' "vehicle:*" = Ok all_keys' →
  all_keys ≡ₚ all_keys' →
  (∀ key, Redis.hgetall redis_client key = Redis.hgetall redis_client' key) →
  Forall (λ key, String.prefix "vehicle:" key = true) all_keys →
  Forall (λ key, ∃ data, Redis.hgetall redis_client key = Ok data) (live_keys all_keys) →
  ∃ snapshot snapshot',
    completed_snapshot redis_client = Some snapshot
    ∧ completed_snapshot redis_client' = Some snapshot'
    ∧ snapshot ≡ₚ snapshot'.
Proof.
  intros Hkeys Hkeys' Hperm Hsame Hprefix Hfetch.
  assert (Hlive : live_keys all_keys ≡ₚ live_keys all_keys')
    by (unfold live_keys; by rewrite Hperm).
  exists (live_keys all_keys ≫= added redis_client),
         (live_keys all_keys' ≫= added redis_client').
  split; [by apply completed_snapshot_added|]. split.
  - apply completed_snapshot_added; [done|by rewrite <- Hperm|].
    rewrite <- Hlive. eapply Forall_impl; [exact Hfetch|].
    intros key [data Hdata]. exists data. by rewrite <- Hsame.
  - rewrite Hlive. clear -Hsame.
    induction (live_keys all_keys') as [|key keys IH]; [done|].
    cbn. rewrite IH. unfold added at 1 3. by rewrite Hsame.
Qed.

End Refresh.

Lemma refresh_filter_law_witness :
  ∃ included : list (option Vehicle.t),
    Forall2
      (λ key entry,
         ∀ data,
           Redis.hgetall (Keyspace.client Keyspace.Flat Sample.fleet) key = Ok data →
           ∀ v, entry = Some v ↔
                ∃ lat lng, qualifies data lat lng ∧ v = projection key data lat lng)
      ["vehicle:1201"; "vehicle:1202"; "vehicle:1203"] included
    ∧ vehicle_cache
        (fetch_and_cache_vehicles (Keyspace.client Keyspace.Flat Sample.fleet) initial).2
      = omap id included.
Proof.
  apply (refresh_filter_law (Keyspace.client Keyspace.Flat Sample.fleet)
           ["vehicle:1201"; "vehicle:1201:track"; "vehicle:1202"; "vehicle:1203"]
           initial).
  - reflexivity.
  - repeat constructor.
  - repeat constructor; eexists; reflexivity.
Defined.

(** C1, at an input where the code departs from it. The test [':track'
    not in key] leaves out more than the history keys: the record under
    [vehicle:tracker9] is active, with coordinates that parse and are not
    zero, and [get_vehicle_details] serves it, yet the refresh completes
    with a snapshot that holds vehicle 1201 only. *)
Theorem refresh_drops_record_of_tracker (st : app) :
  let redis_client := Keyspace.client Keyspace.Flat Fixture.trackers in
  let data : gmap string string :=
    {[ "status" := "active"; "latitude" := "38.72"; "longitude" := "-9.14" ]} in
  let lat := Exact.Finite false 3872 (-2) in
  let lng := Exact.Finite true 914 (-2) in
  Redis.keys redis_client "vehicle:*" = Ok ["vehicle:1201"; "vehicle:tracker9"]
  ∧ Redis.hgetall redis_client "vehicle:tracker9" = Ok data
  ∧ qualifies data lat lng
  ∧ (get_vehicle_details redis_client "tracker9" st).1
    = Return (vehicle_detail "tracker9" data lat lng)
  ∧ completed_snapshot redis_client
    = Some [projection "vehicle:1201"
              {[ "status" := "active"; "latitude" := "38.7169";
                 "longitude" := "-9.1399" ]}
              (Exact.Finite false 387169 (-4)) (Exact.Finite true 91399 (-4))]
  ∧ Vehicle.id <$> vehicle_cache (fetch_and_cache_vehicles redis_client st).2
    = ["1201"].
Proof.
  cbv zeta. split; [reflexivity|]. split; [reflexivity|]. split.
  { split; [reflexivity|]. split; [eexists; split; reflexivity|].
    split; [eexists; split; reflexivity|]. split; reflexivity. }
  split; [reflexivity|]. split; [reflexivity|].
  rewrite fetch_and_cache_vehicles_run. reflexivity.
Qed.

Lemma fetch_error_keeps_snapshot_witness :
  let redis_client := Keyspace.client Keyspace.Flat Sample.mistyped in
  let st := (fetch_and_cache_vehicles (Keyspace.client Keyspace.Flat Sample.fleet) initial).2 in
  (fetch_and_cache_vehicles redis_client st).1 = Return tt
  ∧ vehicle_cache (fetch_and_cache_vehicles redis_client st).2 = vehicle_cache st
  ∧ (∃ error,
       effects (fetch_and_cache_vehicles redis_client st).2
       = effects st ++ [Stdout (ErrorFetchingVehicles error)])
  ∧ ∀ (turns : list turn) (st0 : app),
      (periodic_vehicle_updates turns st0).1 = Return tt.
Proof.
  apply (fetch_error_keeps_snapshot (Keyspace.client Keyspace.Flat Sample.mistyped)).
  right. exists ["vehicle:1201"; "vehicle:history"], "vehicle:history", Keyspace.wrongtype.
  split; [reflexivity|]. split; [|reflexivity].
  vm_compute. by repeat constructor.
Defined.

Section Broadcast.
Context `{Json}.

Lemma load_and_cache_stops_keeps_vehicles (db_pool : Pg.pool) (st : app) :
  vehicle_cache (load_and_cache_stops db_pool st).2 = vehicle_cache st.
Proof.
  unfold load_and_cache_stops, try_except_Exception, mbind, io_bind, lift. cbn.
  destruct db_pool as [db|msg]; cbn; [|done].
  destruct (stop_entries (stops_query db)) as [stops|error]; cbn; [done|].
  by destruct (is_Exception error).
Qed.

(** Only a refresh that completes changes [vehicle_cache]. *)
Lemma cache_after_run (history : list action) (st : app) :
  vehicle_cache (run history st) = latest_snapshot history (vehicle_cache st).
Proof.
  revert st. induction history as [|a history IH]; intros st; [done|].
  cbn. rewrite IH. destruct a; cbn; try done.
  - by rewrite cache_after_refresh.
  - by rewrite load_and_cache_stops_keeps_vehicles.
Qed.

(** X28. Whatever the service has been through, [connect] does this and
    nothing else: it logs the client, emits one [vehicles] event to the
    room of the connecting sid, carrying the snapshot of the latest refresh
    that completed (the empty list before any has), then emits
    [userCount] to everyone, with the number of rooms the manager holds
    in namespace [/]. *)
Theorem connect_pushes_latest_snapshot (history : list action) (sid : string) :
  let st := run history initial in
  connect sid st
  = (Return tt,
     {| vehicle_cache := vehicle_cache st; stops_cache := stops_cache st;
        stop_details_cache := stop_details_cache st; rooms := rooms st;
        effects :=
          effects st
          ++ [Stdout (ClientConnected sid);
              Emit "vehicles" (VehicleList (latest_snapshot history [])) (Some sid);
              Emit "userCount" (UserCount (size (default ∅ (rooms st !! "/")))) None] |}).
Proof.
  cbn. unfold connect, mbind, io_bind. cbn.
  rewrite (cache_after_run history initial). cbn.
  unfold sio_emit. cbn. by rewrite <- !app_assoc.
Qed.

End Broadcast.

(** C9, at an input where the code departs from it. The first client
    connects after a refresh. It gets the snapshot of that refresh, in
    one [vehicles] event to its own room; the [userCount] event that
    follows carries 2, the number of rooms of the namespace, with one
    client connected. *)
Theorem connect_counts_rooms :
  let history :=
    [Refresh (Keyspace.client Keyspace.Flat Sample.fleet); Registry Fixture.one_client] in
  let st := run history initial in
  connected (rooms st) "/" = {[ "a" ]}
  ∧ size (connected (rooms st) "/") = 1%nat
  ∧ connect "a" st
    = (Return tt,
       {| vehicle_cache := vehicle_cache st; stops_cache := stops_cache st;
          stop_details_cache := stop_details_cache st; rooms := rooms st;
          effects :=
            effects st
            ++ [Stdout (ClientConnected "a");
                Emit "vehicles" (VehicleList (vehicle_cache st)) (Some "a");
                Emit "userCount" (UserCount 2) None] |})
  ∧ Vehicle.id <$> vehicle_cache st = ["1201"].
Proof.
  cbv zeta.
  assert (Hconnected : connected Fixture.one_client "/" = {[ "a" ]})
    by (vm_compute; reflexivity).
  split; [exact Hconnected|]. split.
  { change (size (connected Fixture.one_client "/") = 1%nat).
    rewrite Hconnected. apply size_singleton. }
  split; [|reflexivity].
  unfold connect, mbind, io_bind. cbn. unfold sio_emit. cbn.
  rewrite <- !app_assoc. reflexivity.
Qed.

Section Queries.
Context `{Json}.

(** C6. A vehicle id whose hash reads back empty, and a stop id without an
    entry in [stop_details_cache], are answered by raising
    [HTTPException] with status 404; nothing is returned and nothing
    else changes. *)
Theorem absent_entities_not_found (redis_client : Redis.client)
    (vehicle_id stop_id : string) (st : app) :
  (Redis.hgetall redis_client ("vehicle:" +:+ vehicle_id) = Ok ∅ →
   get_vehicle_details redis_client vehicle_id st
   = (Raise (HTTPException 404 "Vehicle not found"), st))
  ∧ (stop_details_cache st !! stop_id = None →
     get_stop_details stop_id st = (Raise (HTTPException 404 "Stop not found"), st)).
Proof.
  split.
  - intros Hempty. unfold get_vehicle_details, get_vehicle_details_try.
    rewrite Hempty. cbn. by rewrite bool_decide_eq_true_2.
  - intros Hnone. unfold get_stop_details. by rewrite Hnone.
Qed.

(** C10, as the code has it. A vehicle id whose hash is not empty gets its
    full detail object whatever the status and whether or not the
    coordinates are zero, provided each coordinate that is present parses
    as a float; a coordinate that is missing reads as [float(0)]. When a
    coordinate that is present does not parse, [float] raises
    [ValueError]: the error is printed and the call answers with status
    500. *)
Theorem vehicle_details_of_stored_hash (redis_client : Redis.client)
    (vehicle_id : string) (data : gmap string string) (st : app) :
  Redis.hgetall redis_client ("vehicle:" +:+ vehicle_id) = Ok data →
  data ≠ ∅ →
  ((∀ s, data !! "latitude" = Some s → is_Some (float_of_str s)) →
   (∀ s, data !! "longitude" = Some s → is_Some (float_of_str s)) →
   ∃ lat lng,
     get_vehicle_details redis_client vehicle_id st
     = (Return (vehicle_detail vehicle_id data lat lng), st)
     ∧ Some lat = from_option float_of_str (Some float_zero) (data !! "latitude")
     ∧ Some lng = from_option float_of_str (Some float_zero) (data !! "longitude"))
  ∧ ((∃ s, data !! "latitude" = Some s ∧ float_of_str s = None)
     ∨ (∃ s, data !! "longitude" = Some s ∧ float_of_str s = None) →
     get_vehicle_details redis_client vehicle_id st
     = (Raise (HTTPException 500 "Failed to fetch vehicle details"),
        {| vehicle_cache := vehicle_cache st; stops_cache := stops_cache st;
           stop_details_cache := stop_details_cache st; rooms := rooms st;
           effects := effects st ++ [Stdout (ErrorFetchingVehicleDetails ValueError)] |})).
Proof.
  intros Hdata Hsome.
  unfold get_vehicle_details, get_vehicle_details_try. rewrite Hdata. cbn.
  rewrite bool_decide_eq_false_2 by done.
  unfold float_get, float_str, float_int. rewrite float_of_int_0. split.
  - intros Hlat Hlng.
    destruct (data !! "latitude") as [slat|] eqn:Elat; cbn.
    + destruct (Hlat slat eq_refl) as [lat Hplat]. rewrite Hplat. cbn.
      destruct (data !! "longitude") as [slng|] eqn:Elng; cbn.
      * destruct (Hlng slng eq_refl) as [lng Hplng]. rewrite Hplng. cbn.
        by exists lat, lng.
      * by exists lat, float_zero.
    + destruct (data !! "longitude") as [slng|] eqn:Elng; cbn.
      * destruct (Hlng slng eq_refl) as [lng Hplng]. rewrite Hplng. cbn.
        by exists float_zero, lng.
      * by exists float_zero, float_zero.
  - intros [(s & Hs & Hnone)|(s & Hs & Hnone)]; rewrite Hs, Hnone; cbn; [done|].
    destruct (data !! "latitude") as [slat|]; [destruct (float_of_str slat)|]; done.
Qed.

(** Entries of a track that fail with one of the three exceptions the
    loop catches are skipped, and the others are returned in the order of
    the reply. *)
Lemma track_loop_skips_caught (track_data : list Redis.zitem) (indices : list nat)
    (track : list TrackPoint.t) :
  Forall
    (λ i, match track_point track_data i with
          | Return _ | Raise JSONDecodeError | Raise KeyError | Raise ValueError => True
          | Raise _ => False
          end)
    indices →
  track_loop track_data indices track
  = Return (track ++ omap (λ i, match track_point track_data i with
                                 | Return point => Some point
                                 | Raise _ => None
                                 end) indices).
Proof.
  revert track. induction indices as [|i indices IH]; intros track Hall; cbn.
  { by rewrite app_nil_r. }
  apply Forall_cons in Hall as [Hi Hall].
  destruct (track_point track_data i) as [point|[]]; try done; rewrite IH by done.
  all: by rewrite <- ?app_assoc.
Qed.

End Queries.

Lemma absent_entities_not_found_witness :
  let redis_client := Keyspace.client Keyspace.Flat Sample.fleet in
  let st := (load_and_cache_stops (Ok Sample.network) initial).2 in
  get_vehicle_details redis_client "9" st
  = (Raise (HTTPException 404 "Vehicle not found"), st)
  ∧ get_stop_details "S9" st = (Raise (HTTPException 404 "Stop not found"), st).
Proof.
  cbv zeta.
  destruct (absent_entities_not_found (Keyspace.client Keyspace.Flat Sample.fleet)
              "9" "S9" (load_and_cache_stops (Ok Sample.network) initial).2)
    as [Hvehicle Hstop].
  split; [apply Hvehicle | apply Hstop]; reflexivity.
Defined.

(** C10 as stated fails: a hash that is not empty, with a latitude that
    is not a number, is answered with status 500. *)
Lemma vehicle_details_unparsable_latitude :
  let redis_client := Keyspace.client Keyspace.Flat Sample.odd_hashes in
  (∃ data, Redis.hgetall redis_client "vehicle:1204" = Ok data ∧ data ≠ ∅)
  ∧ get_vehicle_details redis_client "1204" initial
    = (Raise (HTTPException 500 "Failed to fetch vehicle details"),
       {| vehicle_cache := []; stops_cache := []; stop_details_cache := ∅;
          rooms := ∅;
          effects := [Stdout (ErrorFetchingVehicleDetails ValueError)] |}).
Proof.
  split; [|reflexivity].
  eexists. split; [reflexivity|].
  intros Hempty. apply (f_equal (λ m : gmap string string, m !! "status")) in Hempty.
  vm_compute in Hempty. discriminate.
Qed.

Lemma vehicle_details_of_stored_hash_witness :
  let data : gmap string string :=
    {[ "status" := "inactive"; "route_short_name" := "728" ]} in
  ∃ lat lng,
    get_vehicle_details (Keyspace.client Keyspace.Flat Sample.odd_hashes) "1205" initial
    = (Return (vehicle_detail "1205" data lat lng), initial)
    ∧ Some lat = from_option float_of_str (Some float_zero) (data !! "latitude")
    ∧ Some lng = from_option float_of_str (Some float_zero) (data !! "longitude").
Proof.
  intros data.
  assert (Hsome : data ≠ ∅).
  { intros Hempty. apply (f_equal (λ m : gmap string string, m !! "status")) in Hempty.
    vm_compute in Hempty. discriminate. }
  destruct (vehicle_details_of_stored_hash
              (Keyspace.client Keyspace.Flat Sample.odd_hashes) "1205" data initial
              eq_refl Hsome) as [Hreturns _].
  apply Hreturns; intros s Hs; vm_compute in Hs; discriminate.
Defined.

(** The details of vehicle 1205, whose hash has a status and a route only:
    the coordinates are [float(0)]. *)
Example vehicle_details_without_coordinates :
  (get_vehicle_details (Keyspace.client Keyspace.Flat Sample.odd_hashes) "1205" initial).1
  = Return (vehicle_detail "1205" {[ "status" := "inactive"; "route_short_name" := "728" ]}
              (Exact.Finite false 0 0) (Exact.Finite false 0 0)).
Proof. reflexivity. Qed.

(** A refresh against a server that cannot be reached leaves the snapshot
    of the refresh before it and prints the error. *)
Example refresh_against_unreachable_redis :
  let st := (fetch_and_cache_vehicles (Keyspace.client Keyspace.Flat Sample.fleet) initial).2 in
  let st' := (fetch_and_cache_vehicles Keyspace.unreachable st).2 in
  vehicle_cache st' = vehicle_cache st
  ∧ effects st'
    = effects st ++ [Stdout (ErrorFetchingVehicles (RedisError "Connection refused"))].
Proof. split; reflexivity. Qed.

(** C4, at an input where the code departs from it. One of the five
    entries of the track has [null] for its latitude; [float(None)] is a
    [TypeError], which the loop does not catch, and the call fails with
    status 500, whichever shape the range reply has. *)
Theorem track_with_null_latitude_fails (shape : Keyspace.reply_shape) (st : app) :
  get_vehicle_track (Keyspace.client shape Sample.track_with_null) "1300" st
  = (Raise (HTTPException 500 "Failed to fetch vehicle track"),
     {| vehicle_cache := vehicle_cache st; stops_cache := stops_cache st;
        stop_details_cache := stop_details_cache st; rooms := rooms st;
        effects := effects st ++ [Stdout (ErrorFetchingVehicleTrack TypeError)] |}).
Proof.
  unfold get_vehicle_track, try_except_Exception, lift.
  assert (get_vehicle_track_try (Keyspace.client shape Sample.track_with_null) "1300"
          = Raise TypeError) as -> by (by destruct shape).
  reflexivity.
Qed.

(** An entry that is not JSON is skipped: the four others come back in
    ascending order of timestamp, when the reply is flat. *)
Example track_skips_undecodable_entry :
  match get_vehicle_track_try
          (Keyspace.client Keyspace.Flat Sample.track_with_garbage) "1300" with
  | Return track => Some (TrackPoint.timestamp <$> track)
  | Raise _ => None
  end
  = Some [1700000000; 1700000030; 1700000090; 1700000120]%Z.
Proof. reflexivity. Qed.

Section Sorting.
Context {A : Type} (leb : A → A → bool).

Lemma insert_by_elem_of (x y : A) (l : list A) :
  y ∈ Order.insert_by leb x l ↔ y = x ∨ y ∈ l.
Proof.
  induction l as [|z l IH]; cbn.
  - set_solver.
  - destruct (leb x z); rewrite !elem_of_cons; [done|]. rewrite IH. tauto.
Qed.

Lemma sort_by_elem_of (y : A) (l : list A) :
  y ∈ Order.sort_by leb l ↔ y ∈ l.
Proof.
  induction l as [|x l IH]; cbn; [done|].
  by rewrite insert_by_elem_of, IH, elem_of_cons.
Qed.

Hypothesis leb_total : ∀ x y, leb x y = true ∨ leb y x = true.
Hypothesis leb_trans : ∀ x y z, leb x y = true → leb y z = true → leb x z = true.

Lemma insert_by_sorted (x : A) (l : list A) :
  StronglySorted (λ a b, leb a b = true) l →
  StronglySorted (λ a b, leb a b = true) (Order.insert_by leb x l).
Proof.
  induction 1 as [|z l Hl IH Hz]; cbn.
  - repeat constructor.
  - destruct (leb x z) eqn:Hxz.
    + constructor; [by constructor|]. constructor; [done|].
      eapply Forall_impl; [exact Hz|]. intros w Hw. by eapply leb_trans.
    + constructor; [done|]. apply Forall_forall. intros w Hw.
      apply insert_by_elem_of in Hw as [->|Hw].
      * destruct (leb_total x z); congruence.
      * rewrite Forall_forall in Hz. by apply Hz.
Qed.

Lemma sort_by_sorted (l : list A) :
  StronglySorted (λ a b, leb a b = true) (Order.sort_by leb l).
Proof.
  induction l as [|x l IH]; cbn; [constructor|]. by apply insert_by_sorted.
Qed.

(** The first row of a sorted list comes before every row. *)
Lemma sort_by_head (l : list A) (x y : A) :
  head (Order.sort_by leb l) = Some x → y ∈ l → leb x y = true.
Proof.
  intros Hhead Hy. apply sort_by_elem_of in Hy.
  pose proof (sort_by_sorted l) as Hsorted.
  destruct (Order.sort_by leb l) as [|x' rest]; [done|].
  injection Hhead as ->.
  apply StronglySorted_inv in Hsorted as [_ Hall].
  apply elem_of_cons in Hy as [->|Hy].
  - by destruct (leb_total x x).
  - rewrite Forall_forall in Hall. by apply Hall.
Qed.

End Sorting.

Lemma string_leb_trans (x y z : string) :
  String.leb x y = true → String.leb y z = true → String.leb x z = true.
Proof.
  assert (Hle : ∀ a b, String.leb a b = true ↔ OrdersEx.String_as_OT.lt a b ∨ a = b).
  { intros a b. unfold String.leb, OrdersEx.String_as_OT.lt.
    change OrdersEx.String_as_OT.compare with String.compare.
    destruct (String.compare a b) eqn:Hc.
    - apply String.compare_eq_iff in Hc. tauto.
    - tauto.
    - split; [done|]. intros [Hlt|Heq]; [done|subst a].
      destruct (String.leb_total b b) as [Hb|Hb]; unfold String.leb in Hb;
        by rewrite Hc in Hb. }
  rewrite !Hle. intros [Hxy| ->] [Hyz| ->]; eauto.
  left. by etransitivity.
Qed.

Lemma string_leb_ltb (x y : string) :
  String.leb x y = true → x ≠ y → String.ltb x y = true.
Proof.
  unfold String.leb, String.ltb. destruct (String.compare x y) eqn:Hc; try done.
  apply String.compare_eq_iff in Hc. done.
Qed.

Section SqlFacts.
Context {A B : Type}.

Lemma elem_of_join (on : A → B → bool) (l : list A) (r : list B) (a : A) (b : B) :
  (a, b) ∈ Sql.join on l r ↔ a ∈ l ∧ b ∈ r ∧ on a b = true.
Proof.
  unfold Sql.join. rewrite list_elem_of_bind. split.
  - intros (a' & Hin & Ha').
    apply list_elem_of_fmap in Hin as (b' & [= -> ->] & Hb).
    apply list_elem_of_filter in Hb as [Hon Hb]. by apply Is_true_true in Hon.
  - intros (Ha & Hb & Hon). exists a. split; [|done].
    apply list_elem_of_fmap. exists b. split; [done|].
    apply list_elem_of_filter. split; [|done]. by apply Is_true_true.
Qed.

Lemma elem_of_left_join (on : A → B → bool) (l : list A) (r : list B)
    (a : A) (ob : option B) :
  (a, ob) ∈ Sql.left_join on l r ↔
  a ∈ l ∧ match ob with
          | Some b => b ∈ r ∧ on a b = true
          | None => ∀ b, b ∈ r → on a b = false
          end.
Proof.
  unfold Sql.left_join. rewrite list_elem_of_bind. split.
  - intros (a' & Hin & Ha').
    destruct (filter (λ b, on a' b) r) as [|b0 bs] eqn:Hf.
    + apply list_elem_of_singleton in Hin. injection Hin as -> ->. split; [done|].
      intros b Hb. destruct (on a' b) eqn:Hon; [|done].
      assert (b ∈ filter (λ b, on a' b) r) as Hin.
      { apply list_elem_of_filter. split; [|done]. by apply Is_true_true. }
      rewrite Hf in Hin. by apply elem_of_nil in Hin.
    + rewrite <- Hf in Hin.
      apply list_elem_of_fmap in Hin as (b & [= -> ->] & Hb).
      apply list_elem_of_filter in Hb as [Hon Hb]. by apply Is_true_true in Hon.
  - intros [Ha Hob]. exists a. split; [|done]. destruct ob as [b|].
    + destruct Hob as [Hb Hon].
      assert (b ∈ filter (λ b, on a b) r) as Hin.
      { apply list_elem_of_filter. split; [|done]. by apply Is_true_true. }
      destruct (filter (λ b, on a b) r) as [|b0 bs] eqn:Hf;
        [by apply elem_of_nil in Hin|].
      apply list_elem_of_fmap. eauto.
    + destruct (filter (λ b, on a b) r) as [|b0 bs] eqn:Hf;
        [by apply list_elem_of_singleton|].
      assert (b0 ∈ filter (λ b, on a b) r) as Hin by (rewrite Hf; left).
      apply list_elem_of_filter in Hin as [Hon Hb0]. apply Is_true_true in Hon.
      by rewrite (Hob b0 Hb0) in Hon.
Qed.

Lemma elem_of_group_by `{EqDecision K} (key : A → K) (rows : list A)
    (k : K) (group : list A) :
  (k, group) ∈ Sql.group_by key rows ↔
  (∃ a, a ∈ rows ∧ key a = k) ∧ group = filter (λ a, key a = k) rows.
Proof.
  unfold Sql.group_by. rewrite list_elem_of_fmap. split.
  - intros (k' & [= -> ->] & Hk). rewrite elem_of_remove_dups in Hk.
    apply list_elem_of_fmap in Hk as (a & -> & Ha). eauto.
  - intros [(a & Ha & <-) ->]. exists (key a). split; [done|].
    rewrite elem_of_remove_dups. apply list_elem_of_fmap. eauto.
Qed.

Lemma length_filter_join (on : A → B → bool)
    (R : A * B → Prop) `{∀ x, Decision (R x)}
    (Q : A → Prop) `{∀ a, Decision (Q a)}
    (S : B → Prop) `{∀ b, Decision (S b)} (l : list A) (r : list B) :
  (∀ a b, (on a b = true ∧ R (a, b)) ↔ (Q a ∧ S b)) →
  length (filter R (Sql.join on l r))
  = (length (filter Q l) * length (filter S r))%nat.
Proof.
  intros HR.
  assert (Hrow : ∀ a r',
            length (filter R ((λ b, (a, b)) <$> filter (λ b, on a b) r'))
            = if decide (Q a) then length (filter S r') else 0%nat).
  { intros a r'. induction r' as [|b r' IH]; [by destruct (decide (Q a))|].
    specialize (HR a b). rewrite !filter_cons.
    destruct (decide (Is_true (on a b))) as [Hon|Hon].
    - apply Is_true_true in Hon. cbn -[filter]. rewrite filter_cons.
      destruct (decide (R (a, b))) as [HRab|HRab], (decide (Q a)) as [HQ|HQ],
        (decide (S b)) as [HS|HS]; cbn -[filter]; rewrite IH; try done; tauto.
    - assert (on a b ≠ true) by (by rewrite <- Is_true_true).
      destruct (decide (Q a)) as [HQ|HQ], (decide (S b)) as [HS|HS];
        rewrite IH; try done; tauto. }
  unfold Sql.join. induction l as [|a l IH]; [done|].
  cbn [mbind list_bind]. rewrite filter_app, length_app, IH, Hrow, filter_cons.
  destruct (decide (Q a)); cbn [length]; lia.
Qed.

Lemma filter_all (P : A → Prop) `{∀ x, Decision (P x)} (l : list A) :
  (∀ x, P x) → filter P l = l.
Proof.
  intros HP. induction l as [|x l IH]; [done|].
  by rewrite filter_cons, decide_True, IH.
Qed.

End SqlFacts.

(** What [STRING_AGG(DISTINCT ..., ', ' ORDER BY ...)] and [or ''] make
    of the values of a group. *)
Lemma string_agg_distinct_label (values : list (option string)) :
  ∃ names,
    default "" (Sql.string_agg_distinct ", " values) = Py.join ", " names
    ∧ StronglySorted (λ a b, String.ltb a b = true) names
    ∧ ∀ name, name ∈ names ↔ Some name ∈ values.
Proof.
  assert (Hmem : ∀ name, name ∈ omap id values ↔ Some name ∈ values).
  { intros name. rewrite list_elem_of_omap. split.
    - intros (o & Ho & Hid). cbn in Hid. by subst o.
    - intros Hin. eauto. }
  unfold Sql.string_agg_distinct.
  destruct (omap id values) as [|v vs] eqn:Hvs.
  { exists []. split; [done|]. split; [constructor|]. intros name.
    rewrite <- Hmem. done. }
  exists (remove_dups (Order.sort_by String.leb (v :: vs))). split; [done|]. split.
  - pose proof (sort_by_sorted String.leb String.leb_total string_leb_trans (v :: vs))
      as Hsorted.
    induction Hsorted as [|x l Hl IH Hx]; [constructor|].
    cbn. destruct (decide_rel elem_of x l) as [Hin|Hnotin]; [done|].
    constructor; [done|]. apply Forall_forall. intros y Hy.
    rewrite elem_of_remove_dups in Hy. rewrite Forall_forall in Hx.
    apply string_leb_ltb; [by apply Hx|]. by intros ->.
  - intros name. by rewrite elem_of_remove_dups, sort_by_elem_of, <- Hmem.
Qed.

Section Catalog.
Context `{Json}.

Lemma elem_of_stops_joined (db : Pg.database) (s : stops.row)
    (st : stop_times.row) (t : trips.row) (r : routes.row) :
  (s, Some st, Some t, Some r) ∈ stops_joined db ↔
  s ∈ Pg.stops db ∧ st ∈ Pg.stop_times db ∧ t ∈ Pg.trips db ∧ r ∈ Pg.routes db
  ∧ stops.stop_id s = stop_times.stop_id st
  ∧ stop_times.trip_id st = trips.trip_id t
  ∧ trips.route_id t = routes.route_id r.
Proof.
  unfold stops_joined. rewrite !elem_of_left_join. cbn.
  rewrite !bool_decide_eq_true. tauto.
Qed.

Lemma stops_joined_inv (db : Pg.database) (s : stops.row)
    (ost : option stop_times.row) (ot : option trips.row) (r : routes.row) :
  (s, ost, ot, Some r) ∈ stops_joined db →
  ∃ st t, ost = Some st ∧ ot = Some t.
Proof.
  unfold stops_joined. rewrite !elem_of_left_join. cbn.
  intros [(_ & Hot) [_ Hr]].
  destruct ot as [t|]; [|done]. destruct Hot as [_ Hon].
  destruct ost as [st|]; [|done]. eauto.
Qed.

Lemma stops_joined_stop (db : Pg.database) (s : stops.row)
    (ost : option stop_times.row) (ot : option trips.row) (or : option routes.row) :
  (s, ost, ot, or) ∈ stops_joined db → s ∈ Pg.stops db.
Proof.
  unfold stops_joined. rewrite !elem_of_left_join. tauto.
Qed.

(** Each row of the stops query has its coordinates and carries the
    serving-route label of its stop. *)
Lemma stops_query_row (db : Pg.database) (row : StopRow.t) :
  row ∈ stops_query db →
  is_Some (StopRow.stop_lat row) ∧ is_Some (StopRow.stop_lon row)
  ∧ is_route_label db (StopRow.stop_id row) (routes_or_empty row).
Proof.
  unfold stops_query. rewrite elem_of_remove_dups, list_elem_of_fmap.
  intros ([[[[stop_id stop_name] stop_lat] stop_lon] group] & -> & Hgroup).
  apply elem_of_group_by in Hgroup as [([[[s0 st0] t0] r0] & Hrow0 & Hkey0) ->].
  apply list_elem_of_filter in Hrow0 as [[Hlat Hlon] Hrow0].
  injection Hkey0 as <- <- <- <-.
  split; [done|]. split; [done|]. unfold routes_or_empty. cbn.
  match goal with |- context [Sql.string_agg_distinct _ ?values] =>
    destruct (string_agg_distinct_label values) as (names & Hjoin & Hsorted & Hnames)
  end.
  exists names. split; [done|]. split; [done|].
  intros route. rewrite Hnames, list_elem_of_fmap. split.
  - intros ([[[s ost] ot] or] & Hroute & Hin).
    apply list_elem_of_filter in Hin as [Hkey Hin].
    apply list_elem_of_filter in Hin as [_ Hin].
    destruct or as [r|]; [|done]. cbn in Hroute.
    destruct (stops_joined_inv _ _ _ _ _ Hin) as (st & t & -> & ->).
    apply elem_of_stops_joined in Hin as (_ & Hst & Ht & Hr & Hs & Htrip & Hrte).
    injection Hkey as Hid _ _ _.
    exists st, t, r. repeat split; try done. congruence.
  - intros (st & t & r & Hst & Ht & Hr & Hs & Htrip & Hrte & Hname).
    exists (s0, Some st, Some t, Some r). split; [by cbn|].
    apply list_elem_of_filter. split; [done|].
    apply list_elem_of_filter. split; [done|].
    apply elem_of_stops_joined. repeat split; try done.
    by eapply stops_joined_stop.
Qed.

Lemma stop_entries_rows (rows : list StopRow.t) :
  Forall (λ row, is_Some (StopRow.stop_lat row) ∧ is_Some (StopRow.stop_lon row)) rows →
  ∃ stops,
    stop_entries rows = Return stops
    ∧ Forall2 (λ row stop, Stop.id stop = StopRow.stop_id row
                           ∧ Stop.routes stop = routes_or_empty row) rows stops.
Proof.
  induction 1 as [|row rows [[lat Hlat] [lng Hlng]] _ (stops & Hstops & Hall)].
  { exists []. by split; [|constructor]. }
  eexists. cbn. unfold stop_entry. rewrite Hlat, Hlng. cbn. rewrite Hstops. cbn.
  split; [done|]. by constructor.
Qed.

Lemma stop_details_lookup (rows : list StopRow.t) (stop_id : string)
    (detail : StopDetail.t) :
  stop_details rows !! stop_id = Some detail →
  ∃ row, row ∈ rows ∧ StopRow.stop_id row = stop_id
         ∧ StopDetail.routes detail = routes_or_empty row.
Proof.
  unfold stop_details. induction rows as [|row rows IH] using rev_ind; cbn.
  { by rewrite lookup_empty. }
  rewrite foldl_app. cbn.
  destruct (decide (StopRow.stop_id row = stop_id)) as [Heq|Hne].
  - rewrite Heq, lookup_insert_eq. intros [= <-].
    exists row. rewrite elem_of_app, list_elem_of_singleton. by eauto.
  - rewrite lookup_insert_ne by done. intros (row' & Hin & Hrow')%IH.
    exists row'. rewrite elem_of_app. by eauto.
Qed.

(** A load from a database that answers fills both caches from the rows
    of the stops query. *)
Lemma load_and_cache_stops_run (db : Pg.database) (st : app) :
  ∃ stops,
    stop_entries (stops_query db) = Return stops
    ∧ stops_cache (load_and_cache_stops (Ok db) st).2 = stops
    ∧ stop_details_cache (load_and_cache_stops (Ok db) st).2
      = stop_details (stops_query db).
Proof.
  destruct (stop_entries_rows (stops_query db)) as (stops & Hstops & _).
  { apply Forall_forall. intros row Hrow.
    by destruct (stops_query_row db row Hrow) as (? & ? & _). }
  exists stops. split; [done|].
  unfold load_and_cache_stops, try_except_Exception, mbind, io_bind, lift. cbn.
  by rewrite Hstops.
Qed.

Lemma stops_query_stop (db : Pg.database) (row : StopRow.t) :
  row ∈ stops_query db →
  ∃ s, s ∈ Pg.stops db ∧ stops.stop_id s = StopRow.stop_id row.
Proof.
  unfold stops_query. rewrite elem_of_remove_dups, list_elem_of_fmap.
  intros ([[[[stop_id stop_name] stop_lat] stop_lon] group] & -> & Hgroup).
  apply elem_of_group_by in Hgroup as [([[[s0 st0] t0] r0] & Hrow0 & Hkey0) _].
  apply list_elem_of_filter in Hrow0 as [_ Hrow0].
  injection Hkey0 as <- _ _ _.
  exists s0. split; [by eapply stops_joined_stop|done].
Qed.

(** X12. A stop id that the [stops] table does not have is not found after a
    load. *)
Lemma unknown_stop_not_found (db : Pg.database) (stop_id : string) (st : app) :
  (∀ s, s ∈ Pg.stops db → stops.stop_id s ≠ stop_id) →
  (get_stop_details stop_id (load_and_cache_stops (Ok db) st).2).1
  = Raise (HTTPException 404 "Stop not found").
Proof.
  intros Hunknown. unfold get_stop_details.
  destruct (load_and_cache_stops_run db st) as (stops & _ & _ & ->).
  destruct (stop_details (stops_query db) !! stop_id) as [detail|] eqn:Hlookup; [|done].
  apply stop_details_lookup in Hlookup as (row & Hrow & Hid & _).
  apply stops_query_stop in Hrow as (s & Hs & Hsid).
  destruct (Hunknown s Hs). congruence.
Qed.

(** A label is determined by the routes it lists. *)
Lemma route_label_unique (db : Pg.database) (stop_id label : string)
    (names : list string) :
  is_route_label db stop_id label →
  StronglySorted (λ a b, String.ltb a b = true) names →
  (∀ route, serves db stop_id route ↔ route ∈ names) →
  label = Py.join ", " names.
Proof.
  intros (names' & -> & Hsorted' & Hnames') Hsorted Hnames. f_equal.
  assert (Hirr : ∀ a, String.ltb a a = false).
  { intros a. unfold String.ltb.
    destruct (String.compare a a) eqn:Hc; try done.
    all: pose proof (String.compare_antisym a a) as Hanti.
    all: rewrite Hc in Hanti; done. }
  assert (Hnodup : ∀ l, StronglySorted (λ a b, String.ltb a b = true) l → NoDup l).
  { induction 1 as [|a l _ IH Ha]; constructor; [|done].
    intros Hin. rewrite Forall_forall in Ha. specialize (Ha a Hin).
    by rewrite Hirr in Ha. }
  apply (StronglySorted_unique_strong (λ a b, String.ltb a b = true)); try done.
  - intros a b _ _ Hab Hba. unfold String.ltb in *.
    rewrite String.compare_antisym in Hba.
    by destruct (String.compare a b).
  - apply NoDup_Permutation; [by apply Hnodup..|].
    intros route. by rewrite Hnames', Hnames.
Qed.

(** C7. After a load from a database that answers, every stop of
    [stops_cache] and every entry of [stop_details_cache] carries the
    label of its stop: the short names of the routes serving it, without
    duplicates, in ascending lexical order, joined with [", "]. A stop
    served by exactly the routes B, A and C carries ["A, B, C"]. *)
Theorem stop_label_aggregates_routes (db : Pg.database) (st : app) :
  let st' := (load_and_cache_stops (Ok db) st).2 in
  (∀ stop, stop ∈ stops_cache st' →
     is_route_label db (Stop.id stop) (Stop.routes stop))
  ∧ (∀ stop_id detail, stop_details_cache st' !! stop_id = Some detail →
       is_route_label db stop_id (StopDetail.routes detail))
  ∧ (∀ stop, stop ∈ stops_cache st' →
       (∀ route, serves db (Stop.id stop) route ↔ route ∈ ["B"; "A"; "C"]) →
       Stop.routes stop = "A, B, C").
Proof.
  cbn. destruct (load_and_cache_stops_run db st) as (stops & Hstops & -> & ->).
  assert (Hfirst : ∀ stop, stop ∈ stops →
            is_route_label db (Stop.id stop) (Stop.routes stop)).
  { intros stop Hstop.
    destruct (stop_entries_rows (stops_query db)) as (stops' & Hstops' & Hall).
    { apply Forall_forall. intros row Hrow.
      by destruct (stops_query_row db row Hrow) as (? & ? & _). }
    assert (stops' = stops) as -> by congruence.
    apply list_elem_of_lookup in Hstop as [i Hi].
    destruct (Forall2_lookup_r _ _ _ _ _ Hall Hi) as (row & Hrow & -> & ->).
    apply list_elem_of_lookup_2 in Hrow.
    by destruct (stops_query_row db row Hrow) as (_ & _ & ?). }
  split; [done|]. split.
  - intros stop_id detail (row & Hrow & <- & ->)%stop_details_lookup.
    by destruct (stops_query_row db row Hrow) as (_ & _ & ?).
  - intros stop Hstop Hroutes.
    apply (route_label_unique db (Stop.id stop) _ ["A"; "B"; "C"]).
    + by apply Hfirst.
    + by repeat constructor.
    + intros route. rewrite Hroutes, !elem_of_cons, !elem_of_nil. tauto.
Qed.

End Catalog.

Section Shapes.
Context `{Json}.

(** X22. The row [shape_query] gives has the largest count of its direction. *)
Lemma shape_query_most_rows (db : Pg.database) (route_short_name : string)
    (direction : Z) (shape_id shape_id' : option string) (n n' : nat) :
  shape_query db route_short_name direction = Some (shape_id, n) →
  (shape_id', n') ∈ shape_counts db route_short_name direction →
  (n' ≤ n)%nat.
Proof.
  intros Hhead Hin. unfold shape_query, Sql.order_by in Hhead.
  eapply (sort_by_head (λ a b : option string * nat, Nat.leb b.2 a.2)) in Hhead;
    [|..|exact Hin].
  - by apply Nat.leb_le in Hhead.
  - intros x y. rewrite !Nat.leb_le. lia.
  - intros x y z. rewrite !Nat.leb_le. lia.
Qed.

(** X23. The count of a group is not the number of points of its shape: it is
    that number times the number of trips of the route and direction
    that use the shape, once per route row they join with. *)
Lemma shape_count_product (db : Pg.database) (route_short_name : string)
    (direction : Z) (shape_id : string) (n : nat) :
  (Some shape_id, n) ∈ shape_counts db route_short_name direction →
  n = (length
        (filter
           (λ '(t, r),
              routes.route_short_name r = Some route_short_name
              ∧ trips.direction_id t = Some direction
              ∧ trips.shape_id t = Some shape_id)
           (Sql.join (λ t r, bool_decide (trips.route_id t = routes.route_id r))
              (Pg.trips db) (Pg.routes db)))
      * length (filter (λ s, shapes.shape_id s = shape_id) (Pg.shapes db)))%nat.
Proof.
  unfold shape_counts. rewrite list_elem_of_fmap.
  intros ([k group] & [= <- ->] & Hgroup).
  apply elem_of_group_by in Hgroup as [_ ->].
  unfold Sql.count, shape_rows.
  rewrite filter_all by (by intros [[t r] s]).
  rewrite list_filter_filter.
  apply length_filter_join. intros [t r] s. cbn.
  rewrite bool_decide_eq_true. split.
  - intros (Hon & Hid & Hname & _ & Hdir). repeat split; congruence.
  - intros ((Hname & Hdir & Hid) & <-). repeat split; congruence.
Qed.

Lemma append_shape_cases (db : Pg.database) (chosen : option (option string * nat))
    (direction : Z) (all_shapes : list RouteShape.t) :
  ∃ added : option RouteShape.t,
    append_shape db chosen direction all_shapes = all_shapes ++ option_list added
    ∧ ∀ shape, added = Some shape →
        RouteShape.direction shape = direction
        ∧ ∃ shape_id n,
            chosen = Some (shape_id, n)
            ∧ RouteShape.points shape = point_list (points_query db shape_id).
Proof.
  unfold append_shape. destruct chosen as [[shape_id n]|].
  - case_bool_decide.
    + exists None. by rewrite app_nil_r.
    + eexists (Some _). split; [done|]. intros shape [= <-]. eauto.
  - exists None. by rewrite app_nil_r.
Qed.

(** X24. The answer holds at most one polyline per direction, direction 0
    first, each with the points of the shape that the query of its
    direction gave. *)
Lemma shapes_for_route_per_direction (db : Pg.database) (route_short_name : string) :
  ∃ outbound inbound : option RouteShape.t,
    get_shapes_for_route_try (Ok db) route_short_name
    = Return (option_list outbound ++ option_list inbound)
    ∧ (∀ shape, outbound = Some shape →
         RouteShape.direction shape = 0%Z
         ∧ ∃ shape_id n,
             query_outbound db route_short_name = Some (shape_id, n)
             ∧ RouteShape.points shape = point_list (points_query db shape_id))
    ∧ (∀ shape, inbound = Some shape →
         RouteShape.direction shape = 1%Z
         ∧ ∃ shape_id n,
             query_inbound db route_short_name = Some (shape_id, n)
             ∧ RouteShape.points shape = point_list (points_query db shape_id)).
Proof.
  unfold get_shapes_for_route_try. cbn.
  destruct (append_shape_cases db (query_outbound db route_short_name) 0 [])
    as (outbound & -> & Hout).
  destruct (append_shape_cases db (query_inbound db route_short_name) 1
              ([] ++ option_list outbound)) as (inbound & -> & Hin).
  by exists outbound, inbound.
Qed.

End Shapes.

Lemma stop_label_aggregates_routes_witness :
  is_route_label Sample.network "S1" "A, B, C".
Proof.
  destruct (stop_label_aggregates_routes Sample.network initial) as [Hstops _].
  apply (Hstops (@Stop.mk Exact.exact_num "S1" (Exact.Finite false 387139 (-4))
                   (Exact.Finite true 91394 (-4)) "A, B, C")).
  apply (list_elem_of_here _
           [@Stop.mk Exact.exact_num "S2" (Exact.Finite false 387500 (-4))
              (Exact.Finite true 91500 (-4)) ""]).
Defined.

(** C5, at an input where the code departs from it. The direction 0 trips
    of route 758 use shape [S1] with 40 points (one trip) and shape [S2]
    with 10 points (five trips). The counts of the two groups are 40
    and 50, and the answer for direction 0 is the polyline of [S2]. *)
Theorem shapes_for_route_prefers_busier_shape (st : app) :
  shape_counts (Sample.route_758 1 5) "758" 0 = [(Some "S1", 40); (Some "S2", 50)]
  ∧ get_shapes_for_route (Ok (Sample.route_758 1 5)) "758" st
    = (Return [ {| RouteShape.points := point_list (Sample.polyline "S2" 10);
                   RouteShape.direction := 0 |} ],
       st).
Proof.
  split; [reflexivity|].
  unfold get_shapes_for_route, try_except_Exception, lift.
  assert (get_shapes_for_route_try (Ok (Sample.route_758 1 5)) "758"
          = Return [ {| RouteShape.points := point_list (Sample.polyline "S2" 10);
                        RouteShape.direction := 0 |} ]) as -> by reflexivity.
  reflexivity.
Qed.

(** With one trip on each shape the counts are the numbers of points, and
    the answer for direction 0 is the polyline of [S1]. *)
Example shapes_for_route_single_trips :
  get_shapes_for_route_try (Ok (Sample.route_758 1 1)) "758"
  = Return [ {| RouteShape.points := point_list (Sample.polyline "S1" 40);
                RouteShape.direction := 0 |} ].
Proof. reflexivity. Qed.

(** ** The refresh and the loop around it, whatever Redis answers *)

Section RefreshFacts.
Context `{Json}.

(** One iteration leaves the list as it is or appends one vehicle, built
    from an active record with a fix. *)
Lemma fetch_iteration_cases (key : string) (data : gmap string string)
    (vehicles vehicles' : list Vehicle.t) :
  fetch_iteration key data vehicles = Return vehicles' →
  vehicles' = vehicles
  ∨ ∃ v, vehicles' = vehicles ++ [v]
         ∧ data !! "status" = Some "active"
         ∧ float_bool (Vehicle.lat v) = true
         ∧ float_bool (Vehicle.lng v) = true
         ∧ split ":" key !! 1 = Some (Vehicle.id v).
Proof.
  unfold fetch_iteration, index.
  case_bool_decide; [intros [= <-]; by left|].
  destruct (split ":" key !! 1) as [id|]; cbn; [|done].
  case_bool_decide as Hstatus; [intros [= <-]; by left|].
  unfold float_get, float_str, float_int. rewrite float_of_int_0.
  destruct (data !! "latitude") as [slat|]; [destruct (float_of_str slat) as [lat|]|];
    (destruct (data !! "longitude") as [slng|]; [destruct (float_of_str slng) as [lng|]|]);
    cbn; rewrite ?float_zero_falsy, ?andb_false_r; try (intros [= <-]; by left).
  destruct (float_bool lat) eqn:Hlat, (float_bool lng) eqn:Hlng; cbn;
    intros [= <-]; try by left.
  right. eexists. split; [done|]. cbn. by repeat split.
Qed.

Lemma fetch_loop_sound (redis_client : Redis.client) (keys : list string)
    (vehicles vehicles' : list Vehicle.t) :
  fetch_loop redis_client keys vehicles = Return vehicles' →
  ∃ more,
    vehicles' = vehicles ++ more
    ∧ (length more ≤ length keys)%nat
    ∧ Forall
        (λ v, float_bool (Vehicle.lat v) = true
              ∧ float_bool (Vehicle.lng v) = true
              ∧ ∃ key data,
                  key ∈ keys
                  ∧ Redis.hgetall redis_client key = Ok data
                  ∧ data !! "status" = Some "active"
                  ∧ Vehicle.id v = vehicle_id key)
        more.
Proof.
  revert vehicles. induction keys as [|key keys IH]; intros vehicles; cbn.
  { intros [= <-]. exists []. by rewrite app_nil_r. }
  destruct (Redis.hgetall redis_client key) as [data|msg] eqn:Hdata; cbn; [|done].
  destruct (fetch_iteration key data vehicles) as [vehicles1|error] eqn:Hiter; cbn; [|done].
  intros (more & -> & Hlen & Hall)%IH.
  assert (Hall' : Forall
            (λ v, float_bool (Vehicle.lat v) = true
                  ∧ float_bool (Vehicle.lng v) = true
                  ∧ ∃ key0 data0,
                      key0 ∈ key :: keys
                      ∧ Redis.hgetall redis_client key0 = Ok data0
                      ∧ data0 !! "status" = Some "active"
                      ∧ Vehicle.id v = vehicle_id key0)
            more).
  { eapply Forall_impl; [exact Hall|]. intros v (? & ? & key0 & data0 & ? & ?).
    split; [done|]. split; [done|]. exists key0, data0. split; [by right|done]. }
  apply fetch_iteration_cases in Hiter as [->|(v & -> & Hstatus & Hlat & Hlng & Hid)].
  - exists more. split; [done|]. split; [lia|done].
  - exists (v :: more). rewrite <- app_assoc. split; [done|]. split; [cbn; lia|].
    constructor; [|done]. split; [done|]. split; [done|].
    exists key, data. split; [left|]. split; [done|]. split; [done|].
    unfold vehicle_id. by rewrite Hid.
Qed.

(** X3. Whatever Redis answers, a snapshot that a refresh completes with
    has at most one vehicle for each key it fetched, and each vehicle has
    both coordinates non-zero and comes from a key whose hash has status
    ["active"], with the second component of the key as its id. *)
Theorem completed_snapshot_sound (redis_client : Redis.client)
    (all_keys : list string) (snapshot : list Vehicle.t) :
  Redis.keys redis_client "vehicle:*" = Ok all_keys →
  completed_snapshot redis_client = Some snapshot →
  (length snapshot ≤ length (live_keys all_keys))%nat
  ∧ Forall
      (λ v, float_bool (Vehicle.lat v) = true
            ∧ float_bool (Vehicle.lng v) = true
            ∧ ∃ key data,
                key ∈ live_keys all_keys
                ∧ Redis.hgetall redis_client key = Ok data
                ∧ data !! "status" = Some "active"
                ∧ Vehicle.id v = vehicle_id key)
      snapshot.
Proof.
  intros Hkeys. unfold completed_snapshot, fetch_and_cache_vehicles_try.
  unfold mbind, io_bind, lift. rewrite Hkeys. cbn. fold (live_keys all_keys).
  case_bool_decide; cbn.
  { intros [= <-]. split; [cbn; lia|constructor]. }
  destruct (fetch_loop _ _ _) as [vehicles|error] eqn:Hloop; cbn; [|done].
  intros [= <-].
  apply fetch_loop_sound in Hloop as (more & -> & Hlen & Hall). by cbn.
Qed.

Lemma completed_snapshot_fix (redis_client : Redis.client) (snapshot : list Vehicle.t) :
  completed_snapshot redis_client = Some snapshot →
  Forall (λ v, float_bool (Vehicle.lat v) = true ∧ float_bool (Vehicle.lng v) = true)
    snapshot.
Proof.
  unfold completed_snapshot, fetch_and_cache_vehicles_try.
  unfold mbind, io_bind, lift.
  destruct (Redis.keys redis_client "vehicle:*") as [all_keys|msg]; cbn; [|done].
  case_bool_decide; cbn; [by intros [= <-]|].
  destruct (fetch_loop _ _ _) as [vehicles|error] eqn:Hloop; cbn; [|done].
  intros [= <-].
  apply fetch_loop_sound in Hloop as (more & -> & _ & Hall). cbn.
  eapply Forall_impl; [exact Hall|]. by intros v (? & ? & _).
Qed.

(** X4. Whatever the service has been through (refreshes that complete
    or fail, stop loads, connects, disconnects), every vehicle of
    [vehicle_cache] has a latitude and a longitude that are not zero. *)
Theorem cached_vehicles_have_fix (history : list action) :
  Forall (λ v, float_bool (Vehicle.lat v) = true ∧ float_bool (Vehicle.lng v) = true)
    (vehicle_cache (run history initial)).
Proof.
  rewrite cache_after_run. cbn.
  assert (Hgen : ∀ current,
            Forall (λ v, float_bool (Vehicle.lat v) = true
                         ∧ float_bool (Vehicle.lng v) = true) current →
            Forall (λ v, float_bool (Vehicle.lat v) = true
                         ∧ float_bool (Vehicle.lng v) = true)
              (latest_snapshot history current)); [|by apply Hgen].
  induction history as [|a history IH]; intros current Hcurrent; [done|].
  destruct a; cbn; try by apply IH.
  apply IH. destruct (completed_snapshot redis_client) as [snapshot|] eqn:Hsnap; [|done].
  by apply completed_snapshot_fix in Hsnap.
Qed.

Lemma fetch_loop_ext (redis_client redis_client' : Redis.client) (keys : list string)
    (vehicles : list Vehicle.t) :
  (∀ key, key ∈ keys → Redis.hgetall redis_client key = Redis.hgetall redis_client' key) →
  fetch_loop redis_client keys vehicles = fetch_loop redis_client' keys vehicles.
Proof.
  revert vehicles. induction keys as [|key keys IH]; intros vehicles Hsame; [done|].
  cbn. rewrite <- Hsame by left.
  destruct (Redis.hgetall redis_client key) as [data|msg]; cbn; [|done].
  destruct (fetch_iteration key data vehicles) as [vehicles'|error]; cbn; [|done].
  apply IH. intros k Hk. apply Hsame. by right.
Qed.

(** X5. A refresh reads no history key: two Redis clients that give the
    same key scan and the same hash for every key without [:track] in it
    make the refresh do the same, whatever is stored under the [:track]
    keys. *)
Theorem refresh_reads_no_track_key (redis_client redis_client' : Redis.client)
    (st : app) :
  Redis.keys redis_client "vehicle:*" = Redis.keys redis_client' "vehicle:*" →
  (∀ key, contains ":track" key = false →
     Redis.hgetall redis_client key = Redis.hgetall redis_client' key) →
  fetch_and_cache_vehicles redis_client st = fetch_and_cache_vehicles redis_client' st.
Proof.
  intros Hkeys Hsame. rewrite !fetch_and_cache_vehicles_run, <- Hkeys.
  destruct (Redis.keys redis_client "vehicle:*") as [all_keys|msg]; [|done].
  rewrite (fetch_loop_ext redis_client redis_client'); [done|].
  intros key Hkey. apply Hsame. unfold live_keys in Hkey.
  apply list_elem_of_filter in Hkey as [Htrack _].
  by destruct (contains ":track" key).
Qed.

(** X6. The loop of [periodic_vehicle_updates] does one refresh for each
    turn whose sleep is not cancelled and stops for good at the first one
    that is: it returns normally, in the state that these refreshes
    leave, and with nothing else printed or emitted. *)
Theorem periodic_updates_are_refreshes (turns : list turn) (st : app) :
  periodic_vehicle_updates turns st = (Return tt, run (refreshes turns) st).
Proof.
  revert st. induction turns as [|t turns IH]; intros st; [done|].
  cbn. unfold sleep, mbind, io_bind, raise.
  destruct (cancelled t); cbn; [done|].
  pose proof (fetch_and_cache_vehicles_returns (backend t) st) as Hret.
  destruct (fetch_and_cache_vehicles (backend t) st) as [outcome st'].
  cbn in Hret. subst outcome. cbn. apply IH.
Qed.

End RefreshFacts.

(** ** The handlers over Redis *)

Section RedisQueries.
Context `{Json}.

Lemma split_without_separator (s : string) :
  contains ":" s = false → split ":" s = [s].
Proof.
  induction s as [|c s IH]; [done|].
  change (contains ":" (String c s))
    with (String.prefix ":" (String c s) || contains ":" s).
  cbn [String.prefix split].
  destruct (Ascii.ascii_dec ":" c) as [<-|Hne]; [by destruct s|].
  cbn [orb]. intros Hs. rewrite (IH Hs).
  destruct (Ascii.eqb_spec c ":"); congruence.
Qed.

Lemma vehicle_id_of_key (id : string) :
  contains ":" id = false → split ":" (vehicle_key id) !! 1 = Some id.
Proof.
  intros Hid. unfold vehicle_key. cbv [String.append]. cbn.
  by rewrite (split_without_separator id Hid).
Qed.

(** X7. A vehicle of the snapshot can be looked up by its id: for an id
    without a colon, the refresh gives the record under [vehicle:<id>]
    that id, and [get_vehicle_details] with it reads the same hash and
    returns the same position, route, plate and trip, and the same
    bearing when the hash has one. *)
Theorem snapshot_entry_has_details (redis_client : Redis.client) (id : string)
    (data : gmap string string) (lat lng : pyfloat) (st : app) :
  contains ":" id = false →
  Redis.hgetall redis_client (vehicle_key id) = Ok data →
  qualifies data lat lng →
  let v := projection (vehicle_key id) data lat lng in
  Vehicle.id v = id
  ∧ ∃ detail,
      get_vehicle_details redis_client (Vehicle.id v) st = (Return detail, st)
      ∧ VehicleDetail.id detail = Vehicle.id v
      ∧ VehicleDetail.lat detail = Vehicle.lat v
      ∧ VehicleDetail.lng detail = Vehicle.lng v
      ∧ VehicleDetail.rsn detail = Vehicle.rsn v
      ∧ VehicleDetail.lp detail = Vehicle.lp v
      ∧ VehicleDetail.tid detail = Vehicle.tid v
      ∧ (is_Some (data !! "two_shape_bearing") ∨ is_Some (data !! "bearing") →
         VehicleDetail.br detail = Vehicle.br v).
Proof.
  intros Hid Hdata (Hstatus & (slat & Hslat & Hlat) & (slng & Hslng & Hlng) & _ & _) v.
  assert (Hv : Vehicle.id v = id).
  { unfold v, projection, vehicle_id. cbn. by rewrite (vehicle_id_of_key id Hid). }
  split; [done|]. rewrite Hv.
  unfold get_vehicle_details, get_vehicle_details_try.
  fold (vehicle_key id). rewrite Hdata. cbn.
  rewrite bool_decide_eq_false_2
    by (intros ->; by rewrite lookup_empty in Hstatus).
  unfold float_get, float_str. rewrite Hslat, Hslng, Hlat, Hlng. cbn.
  eexists. split; [done|]. cbn. unfold get.
  repeat split; try done.
  intros [[b Hb]|[b Hb]]; rewrite ?Hb; [done|].
  by destruct (data !! "two_shape_bearing").
Qed.

Lemma get_vehicle_details_try_raises (redis_client : Redis.client) (vehicle_id : string)
    (error : exn) :
  get_vehicle_details_try redis_client vehicle_id = Raise error →
  error = HTTPException 404 "Vehicle not found"
  ∨ error = ValueError
  ∨ ∃ msg, error = RedisError msg.
Proof.
  unfold get_vehicle_details_try.
  destruct (Redis.hgetall _ _) as [data|msg]; cbn; [|intros [= <-]; eauto].
  case_bool_decide; [intros [= <-]; eauto|].
  unfold float_get, float_str, float_int. rewrite float_of_int_0.
  destruct (data !! "latitude") as [slat|]; [destruct (float_of_str slat)|];
    (destruct (data !! "longitude") as [slng|]; [destruct (float_of_str slng)|]);
    cbn; try done; intros [= <-]; eauto.
Qed.

Lemma get_vehicle_details_try_id (redis_client : Redis.client) (vehicle_id : string)
    (detail : VehicleDetail.t) :
  get_vehicle_details_try redis_client vehicle_id = Return detail →
  VehicleDetail.id detail = vehicle_id.
Proof.
  unfold get_vehicle_details_try.
  destruct (Redis.hgetall _ _) as [data|msg]; cbn; [|done].
  case_bool_decide; [done|].
  destruct (float_get data "latitude"); cbn; [|done].
  destruct (float_get data "longitude"); cbn; [|done].
  by intros [= <-].
Qed.

(** X8. Whatever Redis answers, [get_vehicle_details] changes no cache,
    and it does one of three things: it returns an object with the id
    asked for, printing nothing; it raises status 404 with ["Vehicle not
    found"], printing nothing; or it prints one line with the error and
    raises status 500 with ["Failed to fetch vehicle details"]. *)
Theorem vehicle_details_answers (redis_client : Redis.client) (vehicle_id : string)
    (st : app) :
  ∃ printed,
    (get_vehicle_details redis_client vehicle_id st).2
    = {| vehicle_cache := vehicle_cache st; stops_cache := stops_cache st;
         stop_details_cache := stop_details_cache st; rooms := rooms st;
         effects := effects st ++ printed |}
    ∧ match (get_vehicle_details redis_client vehicle_id st).1 with
      | Return detail => printed = [] ∧ VehicleDetail.id detail = vehicle_id
      | Raise error =>
          (error = HTTPException 404 "Vehicle not found" ∧ printed = [])
          ∨ (error = HTTPException 500 "Failed to fetch vehicle details"
             ∧ ∃ cause, printed = [Stdout (ErrorFetchingVehicleDetails cause)])
      end.
Proof.
  unfold get_vehicle_details.
  destruct (get_vehicle_details_try redis_client vehicle_id) as [detail|error] eqn:Htry.
  - exists []. rewrite app_nil_r. cbn. split; [by destruct st|].
    split; [done|]. by eapply get_vehicle_details_try_id.
  - apply get_vehicle_details_try_raises in Htry as [->|[->|[msg ->]]]; cbn.
    + exists []. rewrite app_nil_r. split; [by destruct st|]. by left.
    + eexists. split; [done|]. right. eauto.
    + eexists. split; [done|]. right. eauto.
Qed.

Lemma track_point_raises (track_data : list Redis.zitem) (i : nat) (error : exn) :
  track_point track_data i = Raise error → is_Exception error = true.
Proof.
  unfold track_point, index, json_loads_item, getitem, float_json, float_str,
    float_int, int_item, int_str.
  repeat (match goal with
          | |- context [match ?x with _ => _ end] => destruct x
          end; cbn; try done);
    by intros [= <-].
Qed.

Lemma track_loop_raises (track_data : list Redis.zitem) (indices : list nat)
    (track : list TrackPoint.t) (error : exn) :
  track_loop track_data indices track = Raise error → is_Exception error = true.
Proof.
  revert track. induction indices as [|i indices IH]; intros track; cbn; [done|].
  destruct (track_point track_data i) as [point|e] eqn:Hpoint; [apply IH|].
  apply track_point_raises in Hpoint.
  destruct e; try apply IH; try (by intros [= <-]); done.
Qed.

(** X9. Whatever Redis answers, [get_vehicle_track] changes no cache, and
    it either returns a list, printing nothing, or prints one line with
    the error and raises status 500 with ["Failed to fetch vehicle
    track"]; it never answers 404, and a key that does not exist gives
    the empty list. *)
Theorem vehicle_track_answers (redis_client : Redis.client) (vehicle_id : string)
    (st : app) :
  (Redis.zrange_withscores redis_client ("vehicle:" +:+ vehicle_id +:+ ":track") = Ok [] →
   get_vehicle_track redis_client vehicle_id st = (Return [], st))
  ∧ ∃ printed,
      (get_vehicle_track redis_client vehicle_id st).2
      = {| vehicle_cache := vehicle_cache st; stops_cache := stops_cache st;
           stop_details_cache := stop_details_cache st; rooms := rooms st;
           effects := effects st ++ printed |}
      ∧ match (get_vehicle_track redis_client vehicle_id st).1 with
        | Return track => printed = []
        | Raise error =>
            error = HTTPException 500 "Failed to fetch vehicle track"
            ∧ ∃ cause, printed = [Stdout (ErrorFetchingVehicleTrack cause)]
        end.
Proof.
  unfold get_vehicle_track, try_except_Exception, lift. split.
  { intros Hempty. unfold get_vehicle_track_try. by rewrite Hempty. }
  destruct (get_vehicle_track_try redis_client vehicle_id) as [track|error] eqn:Htry.
  - exists []. rewrite app_nil_r. by destruct st.
  - assert (is_Exception error = true) as ->.
    { unfold get_vehicle_track_try in Htry.
      destruct (Redis.zrange_withscores _ _) as [track_data|msg]; cbn in Htry;
        [|by injection Htry as <-].
      case_bool_decide; [done|]. by eapply track_loop_raises. }
    eexists. cbn. split; [done|]. split; [done|]. by eexists.
Qed.

Lemma length_flat_reply (pairs : list (string * string)) :
  length (flat_reply pairs) = (2 * length pairs)%nat.
Proof.
  unfold flat_reply. induction pairs as [|[member score] pairs IH]; [done|].
  cbn in *. rewrite IH. lia.
Qed.

Lemma lookup_flat_reply (pairs : list (string * string)) (k : nat) :
  flat_reply pairs !! (2 * k)%nat = (λ p, Redis.ZStr p.1) <$> pairs !! k
  ∧ flat_reply pairs !! (2 * k + 1)%nat = (λ p, Redis.ZStr p.2) <$> pairs !! k.
Proof.
  unfold flat_reply. revert k.
  induction pairs as [|[member score] pairs IH]; intros k; [done|].
  destruct k as [|k]; [done|].
  replace (2 * S k)%nat with (S (S (2 * k))) by lia. cbn -[Nat.mul]. apply IH.
Qed.

Lemma track_point_flat_reply (pairs : list (string * string)) (k : nat) :
  track_point (flat_reply pairs) (2 * k)
  = match pairs !! k with
    | Some entry => track_entry entry
    | None => Raise IndexError
    end.
Proof.
  unfold track_entry, track_point, index.
  destruct (lookup_flat_reply pairs k) as [-> ->].
  by destruct (pairs !! k) as [[member score]|].
Qed.

Lemma fmap_lookup_seq {A} (l : list A) :
  (λ k, l !! k) <$> seq 0 (length l) = Some <$> l.
Proof.
  apply list_eq. intros i. rewrite !list_lookup_fmap.
  destruct (decide (i < length l)%nat) as [Hlt|Hge].
  - rewrite lookup_seq_lt by done. cbn.
    destruct (lookup_lt_is_Some_2 l i Hlt) as [x Hx]. by rewrite Hx.
  - rewrite lookup_seq_ge by lia. by rewrite lookup_ge_None_2 by lia.
Qed.

Lemma omap_fmap_compose {A B C} (f : A → B) (g : B → option C) (l : list A) :
  omap g (f <$> l) = omap (λ a, g (f a)) l.
Proof. induction l as [|a l IH]; [done|]. cbn. by rewrite IH. Qed.

Lemma omap_ext_in {A B} (f g : A → option B) (l : list A) :
  (∀ a, a ∈ l → f a = g a) → omap f l = omap g l.
Proof.
  induction l as [|a l IH]; intros Hfg; [done|]. cbn.
  rewrite (Hfg a) by left. rewrite IH; [done|]. intros b Hb. apply Hfg. by right.
Qed.

(** X10. When the range reply is flat (member, score, member, score, ...)
    the loop of [get_vehicle_track] takes each member with the score that
    follows it: if every pair either decodes or fails with one of the
    three exceptions the loop catches, the answer is the list of the
    points of the pairs that decode, in the order of the reply. *)
Theorem track_of_flat_reply (redis_client : Redis.client) (vehicle_id : string)
    (pairs : list (string * string)) :
  Redis.zrange_withscores redis_client ("vehicle:" +:+ vehicle_id +:+ ":track")
  = Ok (flat_reply pairs) →
  Forall
    (λ entry, match track_entry entry with
             | Return _ | Raise JSONDecodeError | Raise KeyError | Raise ValueError => True
             | Raise _ => False
             end)
    pairs →
  get_vehicle_track_try redis_client vehicle_id
  = Return (omap (λ entry, match track_entry entry with
                          | Return point => Some point
                          | Raise _ => None
                          end) pairs).
Proof.
  intros Hreply Hpairs. unfold get_vehicle_track_try. rewrite Hreply.
  assert (Hrange : range2 (length (flat_reply pairs))
                   = Nat.mul 2 <$> seq 0 (length pairs)).
  { unfold range2. by rewrite length_flat_reply, Nat.div2_succ_double. }
  cbn -[range2]. rewrite Hrange.
  case_bool_decide as Hnil.
  { destruct pairs as [|[member score] pairs]; [done|discriminate Hnil]. }
  rewrite track_loop_skips_caught.
  - cbn -[Nat.mul]. f_equal.
    rewrite omap_fmap_compose.
    rewrite (omap_ext_in _
               (λ k, match pairs !! k with
                     | Some entry => match track_entry entry with
                                    | Return point => Some point
                                    | Raise _ => None
                                    end
                     | None => None
                     end)).
    2: { intros k _. rewrite track_point_flat_reply. by destruct (pairs !! k). }
    rewrite <- (omap_fmap_compose (λ k, pairs !! k)
                  (λ o, match o with
                        | Some entry => match track_entry entry with
                                       | Return point => Some point
                                       | Raise _ => None
                                       end
                        | None => None
                        end)).
    by rewrite fmap_lookup_seq, omap_fmap_compose.
  - apply Forall_fmap, Forall_forall. intros k Hk. cbn -[Nat.mul].
    rewrite track_point_flat_reply.
    apply elem_of_seq in Hk as [_ Hk].
    destruct (lookup_lt_is_Some_2 pairs k) as [entry Hentry]; [lia|]. rewrite Hentry.
    rewrite Forall_forall in Hpairs. apply Hpairs. by eapply list_elem_of_lookup_2.
Qed.

(** X11. When the range reply is a list of (member, score) tuples, as
    [withscores=True] makes it, [json.loads] of the first element raises
    [TypeError], which the loop does not catch: every track that is not
    empty is answered with status 500. *)
Theorem track_of_tuple_reply_fails (redis_client : Redis.client) (vehicle_id : string)
    (member : string) (score : pyfloat) (rest : list Redis.zitem) (st : app) :
  Redis.zrange_withscores redis_client ("vehicle:" +:+ vehicle_id +:+ ":track")
  = Ok (Redis.ZTuple member score :: rest) →
  get_vehicle_track redis_client vehicle_id st
  = (Raise (HTTPException 500 "Failed to fetch vehicle track"),
     {| vehicle_cache := vehicle_cache st; stops_cache := stops_cache st;
        stop_details_cache := stop_details_cache st; rooms := rooms st;
        effects := effects st ++ [Stdout (ErrorFetchingVehicleTrack TypeError)] |}).
Proof.
  intros Hreply. unfold get_vehicle_track, try_except_Exception, lift.
  unfold get_vehicle_track_try. rewrite Hreply. cbn.
  unfold range2. cbn [length].
  destruct (Nat.div2 (S (S (length rest)))) as [|n] eqn:Hn; [by destruct rest|].
  reflexivity.
Qed.

End RedisQueries.

(** ** The catalog of stops *)

Section SortingFacts.
Context {A : Type} (leb : A → A → bool).

Lemma insert_by_Permutation (x : A) (l : list A) :
  Order.insert_by leb x l ≡ₚ x :: l.
Proof.
  induction l as [|y l IH]; cbn; [done|].
  destruct (leb x y); [done|]. rewrite IH. apply perm_swap.
Qed.

Lemma sort_by_Permutation (l : list A) : Order.sort_by leb l ≡ₚ l.
Proof.
  induction l as [|x l IH]; cbn; [done|].
  rewrite insert_by_Permutation. by constructor.
Qed.

End SortingFacts.

Section SqlMore.
Context {A B : Type}.

Lemma left_join_total (on : A → B → bool) (l : list A) (r : list B) (a : A) :
  a ∈ l → ∃ ob, (a, ob) ∈ Sql.left_join on l r.
Proof.
  intros Ha. unfold Sql.left_join.
  destruct (filter (λ b, on a b) r) as [|b bs] eqn:Hf.
  - exists None. apply list_elem_of_bind. exists a. rewrite Hf. split; [left|done].
  - exists (Some b). apply list_elem_of_bind. exists a. rewrite Hf. split; [left|done].
Qed.

End SqlMore.

Section CatalogFacts.
Context `{Json}.

Lemma stops_joined_total (db : Pg.database) (s : stops.row) :
  s ∈ Pg.stops db → ∃ ost ot or, (s, ost, ot, or) ∈ stops_joined db.
Proof.
  intros Hs. unfold stops_joined.
  destruct (left_join_total
              (λ s st, bool_decide (stops.stop_id s = stop_times.stop_id st))
              (Pg.stops db) (Pg.stop_times db) s Hs) as [ost Host].
  eapply left_join_total in Host as [ot Hot].
  eapply left_join_total in Hot as [or Hor].
  exists ost, ot, or. exact Hor.
Qed.

(** The rows of the stops query are the stops with both coordinates. *)
Lemma stops_query_fields (db : Pg.database) (stop_id stop_name : string)
    (stop_lat stop_lon : option pyfloat) :
  (∃ row, row ∈ stops_query db
          ∧ StopRow.stop_id row = stop_id ∧ StopRow.stop_name row = stop_name
          ∧ StopRow.stop_lat row = stop_lat ∧ StopRow.stop_lon row = stop_lon)
  ↔ (∃ s, s ∈ Pg.stops db
          ∧ stops.stop_id s = stop_id ∧ stops.stop_name s = stop_name
          ∧ stops.stop_lat s = stop_lat ∧ stops.stop_lon s = stop_lon
          ∧ is_Some stop_lat ∧ is_Some stop_lon).
Proof.
  unfold stops_query. split.
  - intros (row & Hrow & <- & <- & <- & <-).
    rewrite elem_of_remove_dups, list_elem_of_fmap in Hrow.
    destruct Hrow as ([[[[id name] lat] lon] group] & -> & Hgroup).
    apply elem_of_group_by in Hgroup as [([[[s0 st0] t0] r0] & Hrow0 & Hkey0) _].
    apply list_elem_of_filter in Hrow0 as [[Hlat Hlon] Hrow0].
    injection Hkey0 as <- <- <- <-.
    exists s0. split; [by eapply stops_joined_stop|done].
  - intros (s & Hs & <- & <- & <- & <- & Hlat & Hlon).
    destruct (stops_joined_total db s Hs) as (ost & ot & or & Hjoined).
    eexists. split.
    + rewrite elem_of_remove_dups, list_elem_of_fmap.
      eexists (_, _). split; [reflexivity|].
      apply elem_of_group_by. split; [|reflexivity].
      exists (s, ost, ot, or). split; [|reflexivity].
      apply list_elem_of_filter. by split.
    + done.
Qed.

Lemma stop_entries_fields (rows : list StopRow.t) (stops : list Stop.t) :
  stop_entries rows = Return stops →
  Forall2
    (λ row stop,
       Stop.id stop = StopRow.stop_id row
       ∧ StopRow.stop_lat row = Some (Stop.lat stop)
       ∧ StopRow.stop_lon row = Some (Stop.lng stop)
       ∧ Stop.routes stop = routes_or_empty row)
    rows stops.
Proof.
  revert stops. induction rows as [|row rows IH]; intros stops; cbn.
  { intros [= <-]. constructor. }
  unfold stop_entry, float_column.
  destruct (StopRow.stop_lat row) as [lat|] eqn:Hlat; cbn; [|done].
  destruct (StopRow.stop_lon row) as [lng|] eqn:Hlng; cbn; [|done].
  destruct (stop_entries rows) as [stops'|error]; cbn; [|done].
  intros [= <-]. constructor; [done|]. by apply IH.
Qed.

Lemma stop_details_lookup_id (rows : list StopRow.t) (stop_id : string)
    (detail : StopDetail.t) :
  stop_details rows !! stop_id = Some detail → StopDetail.stop_id detail = stop_id.
Proof.
  unfold stop_details. induction rows as [|row rows IH] using rev_ind; cbn.
  { by rewrite lookup_empty. }
  rewrite foldl_app. cbn.
  destruct (decide (StopRow.stop_id row = stop_id)) as [Heq|Hne].
  - rewrite Heq, lookup_insert_eq. by intros [= <-].
  - by rewrite lookup_insert_ne.
Qed.

Lemma stop_details_is_Some (rows : list StopRow.t) (row : StopRow.t) :
  row ∈ rows → is_Some (stop_details rows !! StopRow.stop_id row).
Proof.
  unfold stop_details. induction rows as [|row' rows IH] using rev_ind.
  { by intros ?%elem_of_nil. }
  rewrite foldl_app. cbn.
  destruct (decide (StopRow.stop_id row' = StopRow.stop_id row)) as [Heq|Hne].
  - rewrite Heq, lookup_insert_eq. eauto.
  - rewrite lookup_insert_ne by done. rewrite elem_of_app, list_elem_of_singleton.
    intros [Hin| ->]; [by apply IH|done].
Qed.

Lemma route_label_functional (db : Pg.database) (stop_id label label' : string) :
  is_route_label db stop_id label → is_route_label db stop_id label' → label = label'.
Proof.
  intros Hlabel (names & -> & Hsorted & Hnames).
  apply (route_label_unique db stop_id); [done..|]. intros route. by rewrite Hnames.
Qed.

(** X13. [load_and_cache_stops] never raises and touches neither the
    vehicles nor the rooms. With a database that answers it cannot fail:
    both stop caches are rebuilt from the same rows of the query and the
    count of the list is printed. With one that does not, both stop caches
    stay as they were and the error is printed. *)
Theorem load_and_cache_stops_outcome (db_pool : Pg.pool) (st : app) :
  let st' := (load_and_cache_stops db_pool st).2 in
  (load_and_cache_stops db_pool st).1 = Return tt
  ∧ vehicle_cache st' = vehicle_cache st
  ∧ rooms st' = rooms st
  ∧ match db_pool with
    | Ok db =>
        stop_entries (stops_query db) = Return (stops_cache st')
        ∧ stop_details_cache st' = stop_details (stops_query db)
        ∧ effects st'
          = effects st ++ [Stdout LoadingStops;
                           Stdout (CachedStops (length (stops_cache st')))]
    | Error msg =>
        stops_cache st' = stops_cache st
        ∧ stop_details_cache st' = stop_details_cache st
        ∧ effects st'
          = effects st ++ [Stdout LoadingStops;
                           Stdout (ErrorLoadingStops (PostgresError msg))]
    end.
Proof.
  destruct db_pool as [db|msg].
  - destruct (stop_entries_rows (stops_query db)) as (stops & Hstops & _).
    { apply Forall_forall. intros row Hrow.
      by destruct (stops_query_row db row Hrow) as (? & ? & _). }
    unfold load_and_cache_stops, try_except_Exception, mbind, io_bind, lift. cbn.
    rewrite Hstops. cbn. by rewrite <- app_assoc.
  - unfold load_and_cache_stops, try_except_Exception, mbind, io_bind, lift. cbn.
    by rewrite <- app_assoc.
Qed.

(** X14. After a load from a database that answers, the two views of the
    catalog agree: for every stop that [get_stops] lists,
    [get_stop_details] with its id returns an object, with that id and
    the same routes label; and every entry of [stop_details_cache] is
    filed under its own id and has a stop in [stops_cache] with that id
    and label. *)
Theorem stop_views_agree (db : Pg.database) (st : app) :
  let st' := (load_and_cache_stops (Ok db) st).2 in
  Forall
    (λ stop, ∃ detail,
       get_stop_details (Stop.id stop) st' = (Return detail, st')
       ∧ StopDetail.stop_id detail = Stop.id stop
       ∧ StopDetail.routes detail = Stop.routes stop)
    (stops_cache st')
  ∧ map_Forall
      (λ stop_id detail,
         StopDetail.stop_id detail = stop_id
         ∧ ∃ stop, stop ∈ stops_cache st'
                   ∧ Stop.id stop = stop_id
                   ∧ Stop.routes stop = StopDetail.routes detail)
      (stop_details_cache st').
Proof.
  cbn. unfold get_stop_details.
  destruct (load_and_cache_stops_run db st) as (stops & Hstops & -> & ->).
  pose proof (stop_entries_fields _ _ Hstops) as Hall.
  split.
  - apply Forall_forall. intros stop Hstop.
    apply list_elem_of_lookup in Hstop as [i Hi].
    destruct (Forall2_lookup_r _ _ _ _ _ Hall Hi) as (row & Hrow & Hid & _ & _ & Hroutes).
    apply list_elem_of_lookup_2 in Hrow.
    destruct (stop_details_is_Some _ _ Hrow) as [detail Hdetail].
    exists detail. rewrite Hid, Hdetail. split; [done|].
    split; [by eapply stop_details_lookup_id|].
    destruct (stop_details_lookup _ _ _ Hdetail) as (row' & Hrow' & Hid' & ->).
    rewrite Hroutes.
    destruct (stops_query_row db row Hrow) as (_ & _ & Hlabel).
    destruct (stops_query_row db row' Hrow') as (_ & _ & Hlabel').
    rewrite Hid' in Hlabel'. by eapply route_label_functional.
  - intros stop_id detail Hdetail. split; [by eapply stop_details_lookup_id|].
    destruct (stop_details_lookup _ _ _ Hdetail) as (row & Hrow & <- & ->).
    apply list_elem_of_lookup in Hrow as [i Hi].
    destruct (Forall2_lookup_l _ _ _ _ _ Hall Hi) as (stop & Hstop & Hid & _ & _ & Hroutes).
    exists stop. split; [by eapply list_elem_of_lookup_2|done].
Qed.

(** X15. After a load from a database that answers, [stops_cache] lists
    the stops of the [stops] table that have both coordinates, each with
    its coordinates, whether or not a route serves it; a stop that lacks
    a coordinate is left out. *)
Theorem stops_cache_lists_located_stops (db : Pg.database) (st : app)
    (stop_id : string) (lat lng : pyfloat) :
  (∃ stop, stop ∈ stops_cache (load_and_cache_stops (Ok db) st).2
           ∧ Stop.id stop = stop_id ∧ Stop.lat stop = lat ∧ Stop.lng stop = lng)
  ↔ (∃ s, s ∈ Pg.stops db
          ∧ stops.stop_id s = stop_id
          ∧ stops.stop_lat s = Some lat ∧ stops.stop_lon s = Some lng).
Proof.
  destruct (load_and_cache_stops_run db st) as (stops & Hstops & -> & _).
  pose proof (stop_entries_fields _ _ Hstops) as Hall. split.
  - intros (stop & Hstop & <- & <- & <-).
    apply list_elem_of_lookup in Hstop as [i Hi].
    destruct (Forall2_lookup_r _ _ _ _ _ Hall Hi) as (row & Hrow & Hid & Hlat & Hlng & _).
    apply list_elem_of_lookup_2 in Hrow.
    destruct (proj1 (stops_query_fields db _ _ _ _)
                (ex_intro _ row (conj Hrow (conj eq_refl (conj eq_refl
                   (conj eq_refl eq_refl))))))
      as (s & Hs & Hsid & _ & Hslat & Hslon & _).
    exists s. split; [done|]. split; [congruence|]. split; congruence.
  - intros (s & Hs & <- & Hlat & Hlng).
    destruct (proj2 (stops_query_fields db (stops.stop_id s) (stops.stop_name s)
                       (Some lat) (Some lng)))
      as (row & Hrow & Hid & _ & Hrlat & Hrlng).
    { exists s. by repeat split. }
    apply list_elem_of_lookup in Hrow as [i Hi].
    destruct (Forall2_lookup_l _ _ _ _ _ Hall Hi)
      as (stop & Hstop & Hsid & Hslat & Hslng & _).
    exists stop. split; [by eapply list_elem_of_lookup_2|].
    split; [congruence|]. split; congruence.
Qed.

End CatalogFacts.

(** ** The handlers that read the database only *)

Section LookupFacts.
Context `{Json}.

Lemma StronglySorted_weaken {A} (R R' : A → A → Prop) (l : list A) :
  (∀ x y, R x y → R' x y) → StronglySorted R l → StronglySorted R' l.
Proof.
  intros HR. induction 1 as [|x l _ IH Hx]; constructor; [done|].
  eapply Forall_impl; [exact Hx|]. intros y. apply HR.
Qed.

Lemma Z_leb_total (x y : Z) : (x <=? y)%Z = true ∨ (y <=? x)%Z = true.
Proof. rewrite !Z.leb_le. lia. Qed.

Lemma Z_leb_trans (x y z : Z) :
  (x <=? y)%Z = true → (y <=? z)%Z = true → (x <=? z)%Z = true.
Proof. rewrite !Z.leb_le. lia. Qed.

(** X16. With a database that answers, [get_stops_for_trip] cannot fail
    and prints nothing. Its answer is the stop ids of the distinct pairs
    (stop, sequence) of the stop times of the trip, in ascending order of
    sequence: a stop the trip calls at twice is listed twice, a duplicated
    stop time once, and a trip without stop times gives the empty list. *)
Theorem stops_for_trip_in_sequence (db : Pg.database) (trip_id : string) :
  ∃ rows : list (string * Z),
    get_stops_for_trip (Ok db) trip_id = (Return (rows.*1), [])
    ∧ StronglySorted (λ a b, (a.2 ≤ b.2)%Z) rows
    ∧ NoDup rows
    ∧ ∀ stop_id sequence,
        (stop_id, sequence) ∈ rows ↔
        ∃ st, st ∈ Pg.stop_times db
              ∧ stop_times.trip_id st = trip_id
              ∧ stop_times.stop_id st = stop_id
              ∧ stop_times.stop_sequence st = sequence.
Proof.
  exists (stops_for_trip_query db trip_id). split; [done|].
  unfold stops_for_trip_query, Sql.order_by. split; [|split].
  - eapply StronglySorted_weaken;
      [|apply (sort_by_sorted (λ a b : string * Z, (a.2 <=? b.2)%Z))].
    + intros a b. apply Z.leb_le.
    + intros a b. apply Z_leb_total.
    + intros a b c. apply Z_leb_trans.
  - rewrite sort_by_Permutation. apply NoDup_remove_dups.
  - intros stop_id sequence.
    rewrite sort_by_elem_of, elem_of_remove_dups, list_elem_of_fmap. split.
    + intros (st & [= -> ->] & Hst). apply list_elem_of_filter in Hst as [Htrip Hst].
      by exists st.
    + intros (st & Hst & Htrip & <- & <-). exists st. split; [done|].
      by apply list_elem_of_filter.
Qed.

Lemma elem_of_stops_of_routes (db : Pg.database) (s : stops.row)
    (st : stop_times.row) (t : trips.row) (r : routes.row) :
  (s, st, t, r) ∈ stops_of_routes db ↔
  s ∈ Pg.stops db ∧ st ∈ Pg.stop_times db ∧ t ∈ Pg.trips db ∧ r ∈ Pg.routes db
  ∧ stops.stop_id s = stop_times.stop_id st
  ∧ stop_times.trip_id st = trips.trip_id t
  ∧ trips.route_id t = routes.route_id r.
Proof.
  unfold stops_of_routes. rewrite !elem_of_join. cbn.
  rewrite !bool_decide_eq_true. tauto.
Qed.

Lemma elem_of_stops_for_route_query (db : Pg.database) (route_short_name stop_id : string) :
  stop_id ∈ stops_for_route_query db route_short_name ↔
  (∃ s, s ∈ Pg.stops db ∧ stops.stop_id s = stop_id)
  ∧ serves db stop_id route_short_name.
Proof.
  unfold stops_for_route_query.
  rewrite elem_of_remove_dups, list_elem_of_fmap. split.
  - intros ([[[s st] t] r] & -> & Hrow).
    apply list_elem_of_filter in Hrow as [Hname Hrow].
    apply elem_of_stops_of_routes in Hrow as (Hs & Hst & Ht & Hr & Hid & Htrip & Hroute).
    split; [by exists s|]. by exists st, t, r.
  - intros [(s & Hs & <-) (st & t & r & Hst & Ht & Hr & Hid & Htrip & Hroute & Hname)].
    exists (s, st, t, r). split; [done|].
    apply list_elem_of_filter. split; [done|].
    by apply elem_of_stops_of_routes.
Qed.

(** X17. With a database that answers, [get_stops_for_route] cannot fail
    and prints nothing. Its answer has no duplicates, and a stop id is in
    it exactly when the [stops] table has the stop and a route with that
    short name serves it. *)
Theorem stops_for_route_are_served (db : Pg.database) (route_short_name : string) :
  ∃ stop_ids,
    get_stops_for_route (Ok db) route_short_name = (Return stop_ids, [])
    ∧ NoDup stop_ids
    ∧ ∀ stop_id,
        stop_id ∈ stop_ids ↔
        (∃ s, s ∈ Pg.stops db ∧ stops.stop_id s = stop_id)
        ∧ serves db stop_id route_short_name.
Proof.
  exists (stops_for_route_query db route_short_name). split; [done|].
  split; [apply NoDup_remove_dups|]. apply elem_of_stops_for_route_query.
Qed.

(** X18. The catalog and the stop list of a route agree: after a load from
    a database that answers, the routes label of every stop of
    [stops_cache] is the join with [", "] of names such that a name is
    among them exactly when the stop is in the answer of
    [get_stops_for_route] for that name. *)
Theorem stop_label_lists_routes_of_stop (db : Pg.database) (st : app) :
  Forall
    (λ stop, ∃ names,
       Stop.routes stop = Py.join ", " names
       ∧ ∀ name,
           name ∈ names ↔
           ∃ stop_ids,
             get_stops_for_route (Ok db) name = (Return stop_ids, [])
             ∧ Stop.id stop ∈ stop_ids)
    (stops_cache (load_and_cache_stops (Ok db) st).2).
Proof.
  destruct (load_and_cache_stops_run db st) as (stops & Hstops & -> & _).
  destruct (stop_entries_rows (stops_query db)) as (stops' & Hstops' & Hall).
  { apply Forall_forall. intros row Hrow.
    by destruct (stops_query_row db row Hrow) as (? & ? & _). }
  assert (stops' = stops) as -> by congruence.
  apply Forall_forall. intros stop Hstop.
  apply list_elem_of_lookup in Hstop as [i Hi].
  destruct (Forall2_lookup_r _ _ _ _ _ Hall Hi) as (row & Hrow & -> & ->).
  apply list_elem_of_lookup_2 in Hrow.
  destruct (stops_query_row db row Hrow) as (_ & _ & names & Hjoin & _ & Hnames).
  destruct (stops_query_stop db row Hrow) as (s & Hs & Hsid).
  exists names. split; [done|]. intros name. rewrite Hnames. split.
  - intros Hserves. exists (stops_for_route_query db name). split; [done|].
    apply elem_of_stops_for_route_query. split; [by exists s|done].
  - intros (stop_ids & [= <-] & Hin).
    by apply elem_of_stops_for_route_query in Hin as [_ Hserves].
Qed.

Lemma points_query_sorted_perm (db : Pg.database) (shape_id : string) :
  StronglySorted
    (λ a b, (shapes.shape_pt_sequence a ≤ shapes.shape_pt_sequence b)%Z)
    (points_query db (Some shape_id))
  ∧ points_query db (Some shape_id)
    ≡ₚ filter (λ s, shapes.shape_id s = shape_id) (Pg.shapes db).
Proof.
  unfold points_query, Sql.order_by. split.
  - eapply StronglySorted_weaken;
      [|apply (sort_by_sorted
                 (λ a b : shapes.row,
                    (shapes.shape_pt_sequence a <=? shapes.shape_pt_sequence b)%Z))].
    + intros a b. apply Z.leb_le.
    + intros a b. apply Z_leb_total.
    + intros a b c. apply Z_leb_trans.
  - rewrite sort_by_Permutation.
    erewrite list_filter_iff; [done|]. intros s. cbn. split; congruence.
Qed.

Lemma trip_shape_query_cases (db : Pg.database) (trip_id : string) :
  match trip_shape_query db trip_id with
  | Some shape => ∃ t, t ∈ Pg.trips db ∧ trips.trip_id t = trip_id
                       ∧ trips.shape_id t = shape
  | None => ∀ t, t ∈ Pg.trips db → trips.trip_id t ≠ trip_id
  end.
Proof.
  unfold trip_shape_query.
  destruct (filter (λ t, trips.trip_id t = trip_id) (Pg.trips db)) as [|t ts] eqn:Hf; cbn.
  - intros t Ht Hid.
    assert (t ∈ filter (λ t, trips.trip_id t = trip_id) (Pg.trips db)) as Hin
      by (by apply list_elem_of_filter).
    rewrite Hf in Hin. by apply elem_of_nil in Hin.
  - assert (t ∈ filter (λ t, trips.trip_id t = trip_id) (Pg.trips db)) as Hin
      by (rewrite Hf; left).
    apply list_elem_of_filter in Hin as [Hid Ht]. by exists t.
Qed.

(** X19. For a trip id that the [trips] table gives one shape, not empty,
    [get_shape_for_trip] returns the polyline of that shape: the
    coordinates of the rows of the shape, each once per row, in ascending
    order of sequence. It prints nothing. *)
Theorem shape_for_trip_polyline (db : Pg.database) (trip_id shape_id : string) :
  (∃ t, t ∈ Pg.trips db ∧ trips.trip_id t = trip_id) →
  (∀ t, t ∈ Pg.trips db → trips.trip_id t = trip_id →
        trips.shape_id t = Some shape_id) →
  shape_id ≠ "" →
  ∃ points,
    get_shape_for_trip (Ok db) trip_id = (Return (point_list points), [])
    ∧ StronglySorted
        (λ a b, (shapes.shape_pt_sequence a ≤ shapes.shape_pt_sequence b)%Z) points
    ∧ points ≡ₚ filter (λ s, shapes.shape_id s = shape_id) (Pg.shapes db).
Proof.
  intros (t0 & Ht0 & Hid0) Hshape Hne.
  exists (points_query db (Some shape_id)).
  split; [|apply points_query_sorted_perm].
  unfold get_shape_for_trip, get_shape_for_trip_try. cbn.
  pose proof (trip_shape_query_cases db trip_id) as Hcases.
  destruct (trip_shape_query db trip_id) as [shape|].
  - destruct Hcases as (t & Ht & Hid & <-). rewrite (Hshape t Ht Hid).
    by rewrite bool_decide_eq_false_2.
  - by destruct (Hcases t0 Ht0).
Qed.

(** X20. For a trip id that the [trips] table does not have, or has only
    with a [shape_id] that is [NULL] or empty, [get_shape_for_trip]
    returns the empty list; it does not answer 404 and prints nothing. *)
Theorem shape_for_trip_without_shape (db : Pg.database) (trip_id : string) :
  (∀ t, t ∈ Pg.trips db → trips.trip_id t = trip_id →
        trips.shape_id t = None ∨ trips.shape_id t = Some "") →
  get_shape_for_trip (Ok db) trip_id = (Return [], []).
Proof.
  intros Hshape. unfold get_shape_for_trip, get_shape_for_trip_try. cbn.
  pose proof (trip_shape_query_cases db trip_id) as Hcases.
  destruct (trip_shape_query db trip_id) as [[shape_id|]|]; try done.
  destruct Hcases as (t & Ht & Hid & Hsid).
  destruct (Hshape t Ht Hid) as [Hnone|Hempty]; [congruence|].
  assert (shape_id = "") as -> by congruence. done.
Qed.

Lemma foldl_append_stop_shape (db : Pg.database)
    (rows : list (option string * option string)) (all_shapes : list StopShape.t) :
  foldl (append_stop_shape db) all_shapes rows
  = all_shapes
    ++ omap (λ shape_info,
               let points := points_query db shape_info.1 in
               if bool_decide (points = []) then None
               else Some {| StopShape.route := shape_info.2;
                            StopShape.points := point_list points |})
         rows.
Proof.
  revert all_shapes. induction rows as [|shape_info rows IH]; intros all_shapes; cbn.
  { by rewrite app_nil_r. }
  rewrite IH. unfold append_stop_shape. cbn.
  case_bool_decide; [done|]. by rewrite <- app_assoc.
Qed.

Lemma elem_of_shapes_for_stop_query (db : Pg.database) (stop_id : string)
    (shape : option string) (route : option string) :
  (shape, route) ∈ shapes_for_stop_query db stop_id ↔
  ∃ st t r,
    st ∈ Pg.stop_times db ∧ t ∈ Pg.trips db ∧ r ∈ Pg.routes db
    ∧ stop_times.stop_id st = stop_id
    ∧ stop_times.trip_id st = trips.trip_id t
    ∧ trips.route_id t = routes.route_id r
    ∧ trips.shape_id t = shape ∧ shape ≠ None
    ∧ routes.route_short_name r = route.
Proof.
  unfold shapes_for_stop_query.
  rewrite elem_of_remove_dups, list_elem_of_fmap. split.
  - intros ([[st t] r] & [= -> ->] & Hrow).
    apply list_elem_of_filter in Hrow as [[Hstop Hshape] Hrow].
    rewrite !elem_of_join in Hrow. cbn in Hrow.
    rewrite !bool_decide_eq_true in Hrow.
    exists st, t, r. tauto.
  - intros (st & t & r & Hst & Ht & Hr & Hstop & Htrip & Hroute & <- & Hshape & <-).
    exists (st, t, r). split; [done|].
    apply list_elem_of_filter. split; [done|].
    rewrite !elem_of_join. cbn. rewrite !bool_decide_eq_true. tauto.
Qed.

(** X21. With a database that answers, [get_shapes_for_stop] cannot fail
    and prints nothing. An element is in its answer exactly when its
    points are not empty and are the polyline of the shape of a trip that
    has a stop time at the stop, and its route is the short name of the
    route of that trip; a stop that no such trip calls at gives the empty
    list. *)
Theorem shapes_for_stop_answer (db : Pg.database) (stop_id : string) :
  ∃ all_shapes,
    get_shapes_for_stop (Ok db) stop_id = (Return all_shapes, [])
    ∧ ∀ shape,
        shape ∈ all_shapes ↔
        StopShape.points shape ≠ []
        ∧ ∃ st t r shape_id,
            st ∈ Pg.stop_times db ∧ t ∈ Pg.trips db ∧ r ∈ Pg.routes db
            ∧ stop_times.stop_id st = stop_id
            ∧ stop_times.trip_id st = trips.trip_id t
            ∧ trips.route_id t = routes.route_id r
            ∧ trips.shape_id t = Some shape_id
            ∧ StopShape.route shape = routes.route_short_name r
            ∧ StopShape.points shape = point_list (points_query db (Some shape_id)).
Proof.
  exists (foldl (append_stop_shape db) [] (shapes_for_stop_query db stop_id)). split.
  { unfold get_shapes_for_stop, get_shapes_for_stop_try. cbn.
    case_bool_decide as Hnil; [by rewrite Hnil|done]. }
  intros shape. rewrite foldl_append_stop_shape. cbn. rewrite list_elem_of_omap.
  split.
  - intros ([shape_opt route] & Hrow & Hshape). cbn in Hshape.
    case_bool_decide as Hpoints; [done|]. injection Hshape as <-. cbn.
    apply elem_of_shapes_for_stop_query
      in Hrow as (st & t & r & Hst & Ht & Hr & Hstop & Htrip & Hroute & Hsid & Hsome & Hname).
    destruct shape_opt as [shape_id|]; [|done]. split.
    + unfold point_list. by destruct (points_query db (Some shape_id)).
    + by exists st, t, r, shape_id.
  - intros [Hpoints (st & t & r & shape_id & Hst & Ht & Hr & Hstop & Htrip & Hroute
                     & Hsid & Hname & Heq)].
    exists (Some shape_id, routes.route_short_name r). split.
    + apply elem_of_shapes_for_stop_query. exists st, t, r. by repeat split.
    + cbn. rewrite bool_decide_eq_false_2.
      * destruct shape as [route points]. cbn in *. by subst.
      * intros Hnil. rewrite Heq, Hnil in Hpoints. done.
Qed.

End LookupFacts.

(** ** The lists served from the caches *)

Section RestLists.
Context `{Json}.

(** X26. Whatever the service has been through, [get_vehicles] returns the
    snapshot of the latest refresh whose [try] block ran to its end (the
    empty list before any has), and [root] reports its length and the length
    of [stops_cache]; neither changes anything. *)
Theorem rest_lists_serve_caches (history : list action) :
  let st := run history initial in
  get_vehicles st = (Return (latest_snapshot history []), st)
  ∧ root st
    = (Return {| Health.status := "ok";
                 Health.message := "Carris Backend API";
                 Health.version := "2.0.0";
                 Health.vehicles := length (latest_snapshot history []);
                 Health.stops := length (stops_cache st) |},
       st).
Proof.
  cbn. unfold get_vehicles, get_vehicle_cache, root.
  by rewrite (cache_after_run history initial).
Qed.

End RestLists.

(** ** The shapes of a route *)

Section RouteShapes.
Context `{Json}.

Lemma shape_query_trip (db : Pg.database) (route_short_name : string)
    (direction : Z) (shape : option string) (n : nat) :
  shape_query db route_short_name direction = Some (shape, n) →
  ∃ t r shape_id,
    t ∈ Pg.trips db ∧ r ∈ Pg.routes db
    ∧ trips.route_id t = routes.route_id r
    ∧ routes.route_short_name r = Some route_short_name
    ∧ trips.direction_id t = Some direction
    ∧ trips.shape_id t = Some shape_id
    ∧ shape = Some shape_id.
Proof.
  unfold shape_query, Sql.order_by. intros Hhead.
  apply head_Some_elem_of, sort_by_elem_of in Hhead.
  unfold shape_counts in Hhead. apply list_elem_of_fmap in Hhead.
  destruct Hhead as ([key group] & [= -> ->] & Hgroup).
  apply elem_of_group_by in Hgroup as [([[t r] s] & Hrow & <-) _].
  unfold shape_rows in Hrow.
  apply list_elem_of_filter in Hrow as [(Hname & _ & Hdir) Hrow].
  rewrite !elem_of_join in Hrow. cbn in Hrow. rewrite !bool_decide_eq_true in Hrow.
  destruct Hrow as ((Ht & Hr & Hroute) & Hs & Hshape).
  exists t, r, (shapes.shape_id s). by repeat split.
Qed.

(** X25. With a database that answers, [get_shapes_for_route] cannot
    fail, prints nothing and changes nothing. It returns at most two
    polylines; each has at least one point, is tagged 0 or 1, and is the
    polyline of the shape of a trip of a route with that short name that
    runs in the tagged direction. *)
Theorem shapes_for_route_polylines (db : Pg.database) (route_short_name : string)
    (st : app) :
  ∃ all_shapes,
    get_shapes_for_route (Ok db) route_short_name st = (Return all_shapes, st)
    ∧ (length all_shapes ≤ 2)%nat
    ∧ Forall
        (λ shape,
           RouteShape.points shape ≠ []
           ∧ (RouteShape.direction shape = 0%Z ∨ RouteShape.direction shape = 1%Z)
           ∧ ∃ t r shape_id,
               t ∈ Pg.trips db ∧ r ∈ Pg.routes db
               ∧ trips.route_id t = routes.route_id r
               ∧ routes.route_short_name r = Some route_short_name
               ∧ trips.direction_id t = Some (RouteShape.direction shape)
               ∧ trips.shape_id t = Some shape_id
               ∧ RouteShape.points shape = point_list (points_query db (Some shape_id)))
        all_shapes.
Proof.
  assert (Hblock : ∀ direction all_shapes,
            (direction = 0%Z ∨ direction = 1%Z) →
            ∃ added,
              append_shape db (shape_query db route_short_name direction)
                direction all_shapes
              = all_shapes ++ option_list added
              ∧ ∀ shape, added = Some shape →
                  RouteShape.points shape ≠ []
                  ∧ (RouteShape.direction shape = 0%Z ∨ RouteShape.direction shape = 1%Z)
                  ∧ ∃ t r shape_id,
                      t ∈ Pg.trips db ∧ r ∈ Pg.routes db
                      ∧ trips.route_id t = routes.route_id r
                      ∧ routes.route_short_name r = Some route_short_name
                      ∧ trips.direction_id t = Some (RouteShape.direction shape)
                      ∧ trips.shape_id t = Some shape_id
                      ∧ RouteShape.points shape
                        = point_list (points_query db (Some shape_id))).
  { intros direction all_shapes Hdir. unfold append_shape.
    destruct (shape_query db route_short_name direction) as [[shape n]|] eqn:Hquery.
    - case_bool_decide as Hpoints.
      + exists None. by rewrite app_nil_r.
      + eexists (Some _). split; [done|]. intros ? [= <-]. cbn.
        apply shape_query_trip in Hquery
          as (t & r & shape_id & Ht & Hr & Hroute & Hname & Htdir & Hsid & ->).
        split; [|split; [done|by exists t, r, shape_id]].
        unfold point_list. by destruct (points_query db (Some shape_id)).
    - exists None. by rewrite app_nil_r. }
  unfold get_shapes_for_route, try_except_Exception, lift, get_shapes_for_route_try.
  unfold query_outbound, query_inbound. cbn.
  destruct (Hblock 0%Z [] (or_introl eq_refl)) as (outbound & -> & Hout).
  destruct (Hblock 1%Z ([] ++ option_list outbound) (or_intror eq_refl))
    as (inbound & -> & Hin).
  eexists. split; [done|]. split.
  - destruct outbound, inbound; cbn; lia.
  - cbn. apply Forall_app. split.
    + destruct outbound as [shape|]; constructor; [by apply Hout|constructor].
    + destruct inbound as [shape|]; constructor; [by apply Hin|constructor].
Qed.

End RouteShapes.

(** ** The properties above on the sample data *)

Lemma completed_snapshot_sound_witness :
  let redis_client := Keyspace.client Keyspace.Flat Sample.fleet in
  let all_keys := ["vehicle:1201"; "vehicle:1201:track"; "vehicle:1202"; "vehicle:1203"] in
  let snapshot := default [] (completed_snapshot redis_client) in
  (length snapshot ≤ length (live_keys all_keys))%nat
  ∧ Forall
      (λ v, float_bool (Vehicle.lat v) = true
            ∧ float_bool (Vehicle.lng v) = true
            ∧ ∃ key data,
                key ∈ live_keys all_keys
                ∧ Redis.hgetall redis_client key = Ok data
                ∧ data !! "status" = Some "active"
                ∧ Vehicle.id v = vehicle_id key)
      snapshot.
Proof.
  intros redis_client all_keys snapshot.
  apply (completed_snapshot_sound redis_client all_keys snapshot); reflexivity.
Defined.

Lemma refresh_reads_no_track_key_witness :
  let redis_client := Keyspace.client Keyspace.Flat Sample.fleet in
  fetch_and_cache_vehicles redis_client initial
  = fetch_and_cache_vehicles (Fixture.without_tracks redis_client) initial.
Proof.
  intros redis_client.
  apply (refresh_reads_no_track_key redis_client (Fixture.without_tracks redis_client)
           initial).
  - reflexivity.
  - intros key Hkey. unfold Fixture.without_tracks. cbn [Redis.hgetall].
    by rewrite Hkey.
Defined.

Lemma refresh_with_keys_publishes_witness :
  let redis_client := Keyspace.client Keyspace.Flat Sample.odd_hashes in
  effects (fetch_and_cache_vehicles redis_client initial).2
  = effects initial ++ [Stdout (CachedVehicles (length (@nil Vehicle.t)));
                        Emit "vehicles" (VehicleList []) None].
Proof.
  intros redis_client.
  apply (refresh_with_keys_publishes redis_client ["vehicle:1204"; "vehicle:1205"] []
           initial).
  - reflexivity.
  - intros Hnil. vm_compute in Hnil. discriminate Hnil.
  - reflexivity.
Defined.

Lemma refresh_up_to_key_order_witness :
  let redis_client := Keyspace.client Keyspace.Flat Fixture.two_vehicles in
  ∃ snapshot snapshot',
    completed_snapshot redis_client = Some snapshot
    ∧ completed_snapshot (Fixture.reversed_scan redis_client) = Some snapshot'
    ∧ snapshot ≡ₚ snapshot'.
Proof.
  intros redis_client.
  apply (refresh_up_to_key_order redis_client (Fixture.reversed_scan redis_client)
           ["vehicle:1"; "vehicle:2"] ["vehicle:2"; "vehicle:1"]).
  - reflexivity.
  - reflexivity.
  - apply perm_swap.
  - reflexivity.
  - repeat constructor.
  - repeat constructor; eexists; reflexivity.
Defined.

Lemma snapshot_entry_has_details_witness :
  let redis_client := Keyspace.client Keyspace.Flat Sample.fleet in
  let data : gmap string string :=
    {[ "status" := "active"; "latitude" := "38.7169"; "longitude" := "-9.1399";
       "route_short_name" := "15E"; "license_plate" := "AA-00-BB"; "trip_id" := "T1";
       "bearing" := "90" ]} in
  let v := projection (vehicle_key "1201") data
             (Exact.Finite false 387169 (-4)) (Exact.Finite true 91399 (-4)) in
  Vehicle.id v = "1201"
  ∧ ∃ detail,
      get_vehicle_details redis_client (Vehicle.id v) initial = (Return detail, initial)
      ∧ VehicleDetail.id detail = Vehicle.id v
      ∧ VehicleDetail.lat detail = Vehicle.lat v
      ∧ VehicleDetail.lng detail = Vehicle.lng v
      ∧ VehicleDetail.rsn detail = Vehicle.rsn v
      ∧ VehicleDetail.lp detail = Vehicle.lp v
      ∧ VehicleDetail.tid detail = Vehicle.tid v
      ∧ (is_Some (data !! "two_shape_bearing") ∨ is_Some (data !! "bearing") →
         VehicleDetail.br detail = Vehicle.br v).
Proof.
  intros redis_client data.
  apply (snapshot_entry_has_details redis_client "1201" data
           (Exact.Finite false 387169 (-4)) (Exact.Finite true 91399 (-4)) initial).
  - reflexivity.
  - reflexivity.
  - split; [reflexivity|]. split; [eexists; split; reflexivity|].
    split; [eexists; split; reflexivity|]. split; reflexivity.
Defined.

Lemma track_of_flat_reply_witness :
  let redis_client := Keyspace.client Keyspace.Flat Sample.track_with_garbage in
  let pairs :=
    [ (Sample.jsn "{'latitude': 38.7169, 'longitude': -9.1399}", "1700000000");
      (Sample.jsn "{'latitude': 38.7181, 'longitude': -9.1410}", "1700000030");
      (Sample.jsn "{'latitude': 38.71", "1700000060");
      (Sample.jsn "{'latitude': 38.7203, 'longitude': -9.1433}", "1700000090");
      (Sample.jsn "{'latitude': 38.7214, 'longitude': -9.1444}", "1700000120") ] in
  get_vehicle_track_try redis_client "1300"
  = Return (omap (λ entry, match track_entry entry with
                           | Return point => Some point
                           | Raise _ => None
                           end) pairs).
Proof.
  intros redis_client pairs.
  apply (track_of_flat_reply redis_client "1300" pairs).
  - reflexivity.
  - repeat (constructor; [exact I|]). constructor.
Defined.

Lemma track_of_tuple_reply_fails_witness :
  let redis_client := Keyspace.client Keyspace.Tuples Sample.fleet in
  get_vehicle_track redis_client "1201" initial
  = (Raise (HTTPException 500 "Failed to fetch vehicle track"),
     {| vehicle_cache := []; stops_cache := []; stop_details_cache := ∅; rooms := ∅;
        effects := [] ++ [Stdout (ErrorFetchingVehicleTrack TypeError)] |}).
Proof.
  intros redis_client.
  eapply (track_of_tuple_reply_fails redis_client "1201" _ _ _ initial).
  reflexivity.
Defined.

Lemma unknown_stop_not_found_witness :
  (get_stop_details "S9" (load_and_cache_stops (Ok Sample.network) initial).2).1
  = Raise (HTTPException 404 "Stop not found").
Proof.
  apply (unknown_stop_not_found Sample.network "S9" initial).
  intros s Hs Hid. cbn in Hs.
  rewrite !elem_of_cons, elem_of_nil in Hs.
  destruct Hs as [->|[->|[]]]; discriminate Hid.
Defined.

Lemma shape_for_trip_polyline_witness :
  ∃ points,
    get_shape_for_trip (Ok Fixture.trams) "T28" = (Return (point_list points), [])
    ∧ StronglySorted
        (λ a b, (shapes.shape_pt_sequence a ≤ shapes.shape_pt_sequence b)%Z) points
    ∧ points ≡ₚ filter (λ s, shapes.shape_id s = "P28") (Pg.shapes Fixture.trams).
Proof.
  apply (shape_for_trip_polyline Fixture.trams "T28" "P28").
  - eexists. split; [apply list_elem_of_here|reflexivity].
  - intros t Ht Hid. cbn in Ht. rewrite !elem_of_cons, elem_of_nil in Ht.
    destruct Ht as [->|[->|[->|[]]]]; [reflexivity|discriminate Hid..].
  - discriminate.
Defined.

Lemma shape_for_trip_without_shape_witness :
  get_shape_for_trip (Ok Fixture.trams) "T15x" = (Return [], []).
Proof.
  apply (shape_for_trip_without_shape Fixture.trams "T15x").
  intros t Ht Hid. cbn in Ht. rewrite !elem_of_cons, elem_of_nil in Ht.
  destruct Ht as [->|[->|[->|[]]]]; [discriminate Hid|by left|by right].
Defined.

Lemma shape_query_most_rows_witness : (40 ≤ 50)%nat.
Proof.
  apply (shape_query_most_rows (Sample.route_758 1 5) "758" 0
           (Some "S2") (Some "S1") 50 40).
  - reflexivity.
  - apply list_elem_of_here.
Defined.

Lemma shape_count_product_witness :
  50%nat
  = (length
       (filter
          (λ '(t, r),
             routes.route_short_name r = Some "758"
             ∧ trips.direction_id t = Some 0%Z
             ∧ trips.shape_id t = Some "S2")
          (Sql.join (λ t r, bool_decide (trips.route_id t = routes.route_id r))
             (Pg.trips (Sample.route_758 1 5)) (Pg.routes (Sample.route_758 1 5))))
     * length (filter (λ s, shapes.shape_id s = "S2")
                 (Pg.shapes (Sample.route_758 1 5))))%nat.
Proof.
  apply (shape_count_product (Sample.route_758 1 5) "758" 0 "S2" 50).
  change ((Some "S2", 50%nat) ∈ [(Some "S1", 40%nat); (Some "S2", 50%nat)]).
  apply list_elem_of_further, list_elem_of_here.
Defined.
